(** * Pipeline calibration routines (pipeline_cal.py)

    A shallow embedding of [get_bl_order], [apply_attn_corr] and [unrot].

    Conventions of the embedding:
    - numpy float arrays are arrays of real numbers ([R]); complex arrays are
      arrays of pairs of reals ([C]).  Rounding of floating-point arithmetic
      is not modelled.
    - frequencies ([fghz]) are rationals ([Q]), so that the band lookup and
      the fixed-precision frequency matching can be evaluated.
    - an n-dimensional numpy array is a total function of its indices; the
      extents that loops and reshapes depend on are carried explicitly.
    - objects that the Python code mutates in place and that the caller still
      holds afterwards (the dataset's [x] array, the geometry's
      [ParallacticAngle] array) live in an explicit [Store]. *)

From Stdlib Require Import String Bool List Arith ZArith QArith Qround Reals Lra Lia.
From Stdlib Require Lqa.
Import ListNotations.

Close Scope R_scope.
Close Scope Q_scope.
Close Scope Z_scope.
Open Scope nat_scope.

Set Implicit Arguments.

(** ** Numeric helpers *)

Module Cplx.

Local Open Scope R_scope.

(** Complex numbers as the code uses them: products with complex and real
    factors, sums, differences and [exp(1j*a)]. *)
Record C : Type := mkC { Re : R; Im : R }.

Definition C0 : C := mkC 0 0.
Definition C1 : C := mkC 1 0.
Definition Ci : C := mkC 0 1.

Definition Cadd (a b : C) : C := mkC (Re a + Re b) (Im a + Im b).
Definition Csub (a b : C) : C := mkC (Re a - Re b) (Im a - Im b).
Definition Cmul (a b : C) : C :=
  mkC (Re a * Re b - Im a * Im b) (Re a * Im b + Im a * Re b).
(** complex times real *)
Definition Cscale (a : C) (r : R) : C := mkC (Re a * r) (Im a * r).
(** [np.exp(1j*a)] *)
Definition Cexp_i (a : R) : C := mkC (cos a) (sin a).

End Cplx.
Import Cplx.

Declare Scope C_scope.
Delimit Scope C_scope with C.
Infix "+" := Cadd : C_scope.
Infix "-" := Csub : C_scope.
Infix "*" := Cmul : C_scope.
Infix "*r" := Cscale (at level 40, left associativity) : C_scope.

(** ** Python sequences *)

(** [enumerate(l)] *)
Definition enumerate (A : Type) (l : list A) : list (nat * A) :=
  combine (seq 0 (length l)) l.

(** [range(hi, -1, -1)]: hi, hi-1, ..., 0. *)
Definition range_down (hi : nat) : list nat := rev (seq 0 (S hi)).

(** Index normalisation of a Python or numpy integer index into an axis of
    extent [n]: negative indices count from the end, anything else out of
    range raises IndexError ([None]). *)
Definition py_index (n : nat) (b : Z) : option nat :=
  if ((0 <=? b) && (b <? Z.of_nat n))%Z then Some (Z.to_nat b)
  else if ((- Z.of_nat n <=? b) && (b <? 0))%Z then Some (Z.to_nat (b + Z.of_nat n))
  else None.

(** ** get_bl_order *)

Definition n_ants : nat := 16.

Definition pair_eqb (a b : nat * nat) : bool :=
  (fst a =? fst b) && (snd a =? snd b).

(** [o in order] on a list of tuples *)
Definition pair_in (o : nat * nat) (order : list (nat * nat)) : bool :=
  existsb (pair_eqb o) order.

(** [(i-j) % n_ants]: Python's remainder has the sign of the divisor. *)
Definition bl_k (i j : nat) : nat :=
  Z.to_nat ((Z.of_nat i - Z.of_nat j) mod Z.of_nat n_ants).

(** Body of the inner loop: one append to [order1] or to [order2]. *)
Definition bl_inner (i : nat) (st : list (nat * nat) * list (nat * nat)) (j : nat)
  : list (nat * nat) * list (nat * nat) :=
  let '(order1, order2) := st in
  let k := bl_k i j in
  if k <=? i then (order1 ++ [(k, i)], order2)
  else (order1, order2 ++ [(i, k)]).

Definition bl_outer (st : list (nat * nat) * list (nat * nat)) (i : nat)
  : list (nat * nat) * list (nat * nat) :=
  fold_left (bl_inner i) (range_down (n_ants / 2)) st.

Definition get_bl_order : list (nat * nat) :=
  let '(order1, order2) := fold_left bl_outer (seq 0 n_ants) ([], []) in
  let order2 := filter (fun o => negb (pair_in o order1)) order2 in
  order1 ++ order2.

(** The algorithm as section 4.1 words it: list A and list B collected over
    all [i] and all offsets [j], B filtered against A, A followed by B. *)
Module BaselineOrderSpec.

Definition offsets : list nat := [8; 7; 6; 5; 4; 3; 2; 1; 0]%nat.

Definition k_of (i j : nat) : nat := (i + 16 - j) mod 16.

Definition listA : list (nat * nat) :=
  flat_map (fun i =>
    flat_map (fun j => if k_of i j <=? i then [(k_of i j, i)] else []) offsets)
    (seq 0 16).

Definition listB : list (nat * nat) :=
  flat_map (fun i =>
    flat_map (fun j => if k_of i j <=? i then [] else [(i, k_of i j)]) offsets)
    (seq 0 16).

Definition order : list (nat * nat) :=
  listA ++ filter (fun o => negb (pair_in o listA)) listB.

End BaselineOrderSpec.

(** All unordered pairs, self-pairs included, of a 16-antenna array. *)
Definition all_pairs : list (nat * nat) :=
  flat_map (fun a => map (fun b => (a, b)) (seq a (n_ants - a))) (seq 0 n_ants).

Fixpoint distinctb (l : list (nat * nat)) : bool :=
  match l with
  | [] => true
  | o :: l' => negb (pair_in o l') && distinctb l'
  end.

(** ** Exceptions *)

(** [NoValidGeometrySample] is section 7's name for the failure on a
    geometry without a sample of valid pointing. *)
Inductive PyExc : Type :=
| IndexError
| ValueError
| TypeError
| NoValidGeometrySample.

(** Outcome of a call: a returned value or a raised exception. *)
Inductive result (A : Type) : Type :=
| Ok (a : A)
| Raise (e : PyExc).
Arguments Raise {A} e.

Definition bind (A B : Type) (r : result A) (k : A -> result B) : result B :=
  match r with
  | Ok a => k a
  | Raise e => Raise e
  end.

Notation "x <- r ;; k" := (bind r (fun x => k))
  (at level 61, r at next level, right associativity).

Definition of_option (A : Type) (e : PyExc) (o : option A) : result A :=
  match o with
  | Some a => Ok a
  | None => Raise e
  end.

Fixpoint mapM (A B : Type) (f : A -> result B) (l : list A) : result (list B) :=
  match l with
  | [] => Ok []
  | a :: l' => b <- f a ;; bs <- mapM f l' ;; Ok (b :: bs)
  end.

(** ** numpy helpers *)

(** [q.astype(int)]: conversion of a float to an integer truncates toward
    zero. *)
Definition Qtrunc (q : Q) : Z := Z.quot (Qnum q) (Zpos (Qden q)).

(** [round]: to the nearest integer, ties to the even one. *)
Definition Qround_even (q : Q) : Z :=
  let fl := Qfloor q in
  match Qcompare (q - inject_Z fl) (1 # 2) with
  | Lt => fl
  | Gt => (fl + 1)%Z
  | Eq => if Z.even fl then fl else (fl + 1)%Z
  end.

(** [10**y] on floats *)
Definition pow10 (y : R) : R := Rpower 10 y.

Fixpoint insert_sorted (a : R) (l : list R) : list R :=
  match l with
  | [] => [a]
  | b :: l' => if Rle_dec a b then a :: l else b :: insert_sorted a l'
  end.

Definition sort_R (l : list R) : list R := fold_right insert_sorted [] l.

(** [np.median] of a one-dimensional array: the middle element of the sorted
    values, or the mean of the two middle ones.  (numpy gives nan on an
    empty array; the model gives 0.) *)
Definition median (l : list R) : R :=
  let s := sort_R l in
  let n := length s in
  if Nat.even n then ((nth (n / 2 - 1) s 0 + nth (n / 2) s 0) / 2)%R
  else nth (n / 2) s 0%R.

(** [np.median(h, 1)] for [h] of extent [nt] along axis 1. *)
Definition median_rows (h : nat -> nat -> R) (nt : nat) : nat -> R :=
  fun i => median (map (h i) (seq 0 nt)).

(** Modelled from the spec: [util.nearest_val_idx] is not part of the source
    file; section 4.2 step 7 describes it as nearest-neighbour selection by
    absolute time difference.  [nearest_one v b] is the first index of [b]
    whose value is nearest to [v]. *)
Fixpoint nearest_from (v : R) (b : list R) (pos best : nat) (dbest : R) : nat :=
  match b with
  | [] => best
  | y :: b' =>
      if Rlt_dec (Rabs (y - v)) dbest
      then nearest_from v b' (S pos) pos (Rabs (y - v))
      else nearest_from v b' (S pos) best dbest
  end.

Definition nearest_one (v : R) (b : list R) : nat :=
  match b with
  | [] => 0
  | y :: b' => nearest_from v b' 1 0 (Rabs (y - v))
  end.

Definition nearest_val_idx (a b : list R) : list nat :=
  map (fun v => nearest_one v b) a.

(** ** Data model *)

(** [x]: complex, indexed [frequency, baseline, polarization product, time]. *)
Definition XArr : Type := nat -> nat -> nat -> nat -> C.

(** [px], [py]: real, in the view [134, 16, 3, nt] that the code reshapes
    them to (and back from); the flat layout [134*16*3, nt] is the same data. *)
Definition PArr : Type := nat -> nat -> nat -> nat -> R.

(** The dictionary returned by readXdata.  [x] has the extents
    [length fghz, 136, 4, length time], [px] and [py] the extents
    [134, 16, 3, length time].  [masked_keys] lists the keys whose value has
    been replaced by [np.ma.masked]. *)
Record Dataset : Type := mkDataset {
  time : list R;
  fghz : list Q;
  x : XArr;
  px : PArr;
  py : PArr;
  masked_keys : list string
}.

(** The dictionary returned by get_gain_state. *)
Record GainState : Type := mkGainState {
  times : list R;                      (* 'times' (as .jd) *)
  h1 : nat -> nat -> R;                (* [antenna, time] *)
  h2 : nat -> nat -> R;
  v1 : nat -> nat -> R;
  v2 : nat -> nat -> R;
  dcmattn : nat -> nat -> nat -> R     (* [antenna, polarization, band] *)
}.

(** The dictionary returned by get_sql_info.  [ParallacticAngle] is indexed
    [time, antenna] and has [azel_nt] rows. *)
Record AzelDict : Type := mkAzelDict {
  ParallacticAngle : nat -> nat -> R;
  azel_nt : nat;
  ActualAzimuth0 : list R;             (* 'ActualAzimuth'[0] *)
  azTime : list R                      (* 'Time' (as .jd) *)
}.

(** The fields of the X-Y delay phase calibration record (type 11) that
    unrot extracts. *)
Record XYCal : Type := mkXYCal {
  cal_fghz : list Q;                   (* 'FGHz' *)
  XYphase : nat -> nat -> R            (* 'XYphase', [antenna, frequency] *)
}.

(** Keys offered to a dict: strings hash, numpy arrays do not. *)
Inductive PyKey : Type :=
| KStr (s : string)
| KNdarray (a : list nat).

(** [d[key] = np.ma.masked] on a dataset dictionary: hashing the key comes
    first, and [ndarray.__hash__] is [None]. *)
Definition dict_setitem_masked (d : Dataset) (key : PyKey) : result Dataset :=
  match key with
  | KNdarray _ => Raise TypeError
  | KStr s => Ok (mkDataset (time d) (fghz d) (x d) (px d) (py d) (s :: masked_keys d))
  end.

(** ** apply_attn_corr *)

(** The reference gain state after lines 73-76: [h1], [h2], [v1], [v2]
    reduced to their per-antenna medians over the reference minute. *)
Record RefGain : Type := mkRefGain {
  ref_h1 : nat -> R;
  ref_h2 : nat -> R;
  ref_v1 : nat -> R;
  ref_v2 : nat -> R;
  ref_dcmattn : nat -> nat -> nat -> R
}.

Definition ref_median (ref_gs : GainState) : RefGain :=
  let n := length (times ref_gs) in
  mkRefGain (median_rows (h1 ref_gs) n) (median_rows (h2 ref_gs) n)
            (median_rows (v1 ref_gs) n) (median_rows (v2 ref_gs) n)
            (dcmattn ref_gs).

(** [antgain[i,p,j,t]] after the loops of lines 87-90 over the zero array of
    shape (15,2,34,nt). *)
Definition antgain (src_gs : GainState) (ref_gs : RefGain) (i p j t : nat) : R :=
  if (i <? 15) && (j <? 34) then
    match p with
    | 0 => (h1 src_gs i t + h2 src_gs i t - ref_h1 ref_gs i - ref_h2 ref_gs i
            + dcmattn src_gs i 0 j - ref_dcmattn ref_gs i 0 j)%R
    | 1 => (v1 src_gs i t + v2 src_gs i t - ref_v1 ref_gs i - ref_v2 ref_gs i
            + dcmattn src_gs i 1 j - ref_dcmattn ref_gs i 1 j)%R
    | _ => 0%R
    end
  else 0%R.

(** One entry of [blist = (fghz*2 - 1).astype(int) - 1]. *)
Definition band_of (f : Q) : Z := (Qtrunc (f * 2 - 1) - 1)%Z.

Definition blist (fghz : list Q) : list Z := map band_of fghz.

(** [blist] as positions along the band axis (extent 34) of [antgain]. *)
Definition blist_idx (fghz : list Q) : result (list nat) :=
  mapM (fun b => of_option IndexError (py_index 34 b)) (blist fghz).

(** Polarization of antenna [i] and of antenna [j] in product [p]:
    0 = HH, 1 = VV, 2 = HV, 3 = VH, with H = 0 and V = 1. *)
Definition pol_i (p : nat) : nat :=
  match p with 0 => 0 | 1 => 1 | 2 => 0 | _ => 1 end.
Definition pol_j (p : nat) : nat :=
  match p with 0 => 0 | 1 => 1 | 2 => 1 | _ => 0 end.

(** Body of the loop of lines 98-104. *)
Definition blgain_step (ag : nat -> nat -> nat -> nat -> R) (band : nat -> nat)
    (blgain : nat -> nat -> nat -> nat -> R) (kb : nat * (nat * nat))
  : nat -> nat -> nat -> nat -> R :=
  let '(k, (i, j)) := kb in
  if (i <? 15) && (j <? 15) then
    fun f k' p t =>
      if k' =? k then
        match p with
        | 0 => pow10 ((ag i 0%nat (band f) t + ag j 0%nat (band f) t) / 20)
        | 1 => pow10 ((ag i 1%nat (band f) t + ag j 1%nat (band f) t) / 20)
        | 2 => pow10 ((ag i 0%nat (band f) t + ag j 1%nat (band f) t) / 20)
        | 3 => pow10 ((ag i 1%nat (band f) t + ag j 0%nat (band f) t) / 20)
        | _ => blgain f k' p t
        end
      else blgain f k' p t
  else blgain.

(** [blgain]: [np.zeros((nf,136,4,nt))] updated by the loop. *)
Definition blgain (ag : nat -> nat -> nat -> nat -> R) (band : nat -> nat)
  : nat -> nat -> nat -> nat -> R :=
  fold_left (blgain_step ag band) (enumerate get_bl_order) (fun _ _ _ _ => 0%R).

(** Lines 116-120 on one of [px], [py] (polarization [pol]):
    [p[:,:15,0] *= g[:,:,pol,idx]] and [p[:,:15,1] *= g[:,:,pol,idx]**2]. *)
Definition power_corr (p : PArr) (pol : nat) (g : nat -> nat -> nat -> nat -> R)
    (row : nat -> nat) (it : nat -> nat) : PArr :=
  fun r a m t =>
    if a <? 15 then
      match m with
      | 0 => (p r a 0%nat t * g (row r) a pol (it t))%R
      | 1 => (p r a 1%nat t * (g (row r) a pol (it t)) ^ 2)%R
      | _ => p r a m t
      end
    else p r a m t.

(** [apply_attn_corr(data, tref)].  [ref_gs] is the value of
    [get_gain_state(trefrange)] and [src_gs] that of
    [get_gain_state(trange, dt)]; resolving [tref] and the cadence [dt] only
    prepares the arguments of these provider calls.  The result is the
    deep copy [cdata]; [data] itself is never written. *)
Definition apply_attn_corr (data : Dataset) (ref_gs src_gs : GainState)
  : result Dataset :=
  match time data with
  | [] => Raise IndexError                       (* data['time'][0] *)
  | [_] => Raise ValueError                      (* np.int of the median of nothing *)
  | _ =>
      let ref := ref_median ref_gs in
      let nt := length (times src_gs) in
      let ag := antgain src_gs ref in
      let nf := length (fghz data) in
      bl <- blist_idx (fghz data) ;;
      let band f := nth f bl 0 in
      let bg := blgain ag band in
      let antgainf := fun f a p t => pow10 (ag a p (band f) t / 10) in
      let idx := nearest_val_idx (time data) (times src_gs) in
      let it t := nth t idx 0 in
      let x' : XArr := fun f k p t => (x data f k p t *r bg f k p (it t))%C in
      (* px.shape = (134,16,3,nt) needs as many gain times as data times *)
      if negb (length (time data) =? nt) then Raise ValueError else
      (* (134,15,nt) *= (nf,15,nt) needs nf to broadcast against 134 *)
      if negb ((nf =? 134) || (nf =? 1)) then Raise ValueError else
      let row r := if nf =? 1 then 0 else r in
      Ok (mkDataset (time data) (fghz data) x'
                    (power_corr (px data) 0 antgainf row it)
                    (power_corr (py data) 1 antgainf row it)
                    (masked_keys data))
  end.

(** The inputs on which apply_attn_corr reaches its return statement: at
    least two time samples, as many gain times as data times, a frequency
    axis that broadcasts against the 134 rows of [px] and [py], and every
    frequency in a band the gain tables have. *)
Definition band_ok (q : Q) : bool :=
  match py_index 34 (band_of q) with
  | Some _ => true
  | None => false
  end.

Definition attn_input_ok (data : Dataset) (src_gs : GainState) : bool :=
  (2 <=? length (time data))
  && (length (time data) =? length (times src_gs))
  && ((length (fghz data) =? 134) || (length (fghz data) =? 1))
  && forallb band_ok (fghz data).

(** The two parts of an antenna gain: the difference of the component
    tables and the difference of the attenuator settings, source minus
    reference. *)
Definition comp_diff (src_gs : GainState) (ref_gs : RefGain) (i pol t : nat) : R :=
  match pol with
  | 0 => (h1 src_gs i t + h2 src_gs i t - ref_h1 ref_gs i - ref_h2 ref_gs i)%R
  | _ => (v1 src_gs i t + v2 src_gs i t - ref_v1 ref_gs i - ref_v2 ref_gs i)%R
  end.

Definition attn_diff (src_gs : GainState) (ref_gs : RefGain) (i pol band : nat) : R :=
  (dcmattn src_gs i pol band - ref_dcmattn ref_gs i pol band)%R.

(** The source gain state is the reference gain state: [h1], [h2], [v1],
    [v2] at every gain time and [dcmattn] in every band, for the 15
    antennas the gain tables cover. *)
Definition same_gain_state (src_gs : GainState) (ref_gs : RefGain) : Prop :=
  (forall i t, i < 15 -> t < length (times src_gs) ->
     h1 src_gs i t = ref_h1 ref_gs i /\ h2 src_gs i t = ref_h2 ref_gs i /\
     v1 src_gs i t = ref_v1 ref_gs i /\ v2 src_gs i t = ref_v2 ref_gs i) /\
  (forall i p b, i < 15 -> p < 2 -> b < 34 ->
     dcmattn src_gs i p b = ref_dcmattn ref_gs i p b).

(** The band formula as the specification words it, with rounding. *)
Definition band_rounded (f : Q) : Z := (Qround_even (f * 2 - 1) - 1)%Z.


(** ** unrot *)

(** Modelled from the spec: [util.lobe] is not part of the source file;
    section 4.3 step 6 describes it as reducing an angle to a canonical
    range, (-pi, pi]. *)
Definition lobe (a : R) : R :=
  (a + 2 * PI * IZR (up ((- a - PI) / (2 * PI))))%R.

(** Frequency value at the matching precision of 4 decimal digits. *)
Definition freq_key (q : Q) : Z := Qround_even (q * inject_Z 10000).

Fixpoint find_index (k : Z) (l : list Z) (pos : nat) : option nat :=
  match l with
  | [] => None
  | y :: l' => if Z.eqb k y then Some pos else find_index k l' (S pos)
  end.

(** Modelled from the spec: [util.common_val_idx(a1, a2, precision=4)] is
    not part of the source file; section 4.3 step 5 describes it as matching
    the two frequency axes by value at 4 decimal digits.  The result is the
    positions in [a1] of the matched values and, for each, its position in
    [a2]. *)
Definition common_hit (k2 : list Z) (iq : nat * Q) : list (nat * nat) :=
  match find_index (freq_key (snd iq)) k2 0 with
  | Some j => [(fst iq, j)]
  | None => []
  end.

Definition common_hits (a1 a2 : list Q) : list (nat * nat) :=
  flat_map (common_hit (map freq_key a2)) (enumerate a1).

Definition common_val_idx (a1 a2 : list Q) : list nat * list nat :=
  (map fst (common_hits a1 a2), map snd (common_hits a1 a2)).

(** [np.setdiff1d(np.arange(n), idx)] *)
Definition setdiff1d_arange (n : nat) (idx : list nat) : list nat :=
  filter (fun i => negb (existsb (Nat.eqb i) idx)) (seq 0 n).

(** [np.where(fghz != 0.)] on the calibration record's frequency axis. *)
Definition nonzero_idx (l : list Q) : list nat :=
  flat_map (fun iq : nat * Q => if Qeq_bool (snd iq) 0 then [] else [fst iq])
           (enumerate l).

(** [np.where(a != 0)] on a float row. *)
Definition nonzero_idx_R (l : list R) : list nat :=
  flat_map (fun ia : nat * R => if Req_dec_T (snd ia) 0 then [] else [fst ia])
           (enumerate l).

(** The loop of lines 172-173, in place on [chi]. *)
Definition sub_ref_col (chi : nat -> nat -> R) (i : nat) : nat -> nat -> R :=
  fun n a => if a =? i then (chi n a - chi n 13%nat)%R else chi n a.

Definition correct_chi (chi : nat -> nat -> R) : nat -> nat -> R :=
  fold_left sub_ref_col [8; 9; 10; 12; 13] chi.

(** [xa[fidx1,k,p] *= np.repeat(fac, nt).reshape(nf, nt)]: the products are
    formed from the array as it stands and then stored, one row of [fidx1]
    after the other. *)
Definition imul_step (xa : XArr) (k p : nat) (fac : nat -> C)
    (acc : XArr) (mf : nat * nat) : XArr :=
  fun f' k' p' t =>
    if (f' =? snd mf) && (k' =? k) && (p' =? p)
    then (xa (snd mf) k p t * fac (fst mf))%C
    else acc f' k' p' t.

Definition imul_rows (xa : XArr) (fidx1 : list nat) (k p : nat) (fac : nat -> C)
  : XArr :=
  fold_left (imul_step xa k p fac) (enumerate fidx1) xa.

(** Which baselines lines 194 and 207 correct. *)
Definition corrected_bl (i j : nat) : bool :=
  (i <? 14) && (j <? 14) && negb (i =? j).

(** Body of the loop of lines 192-200. *)
Definition delay_step (dph : nat -> nat -> R) (fidx1 fidx2 : list nat)
    (xa : XArr) (kb : nat * (nat * nat)) : XArr :=
  let '(k, (i, j)) := kb in
  if corrected_bl i j then
    let c m := nth m fidx2 0 in
    let a1 m := lobe (dph i (c m) - dph j (c m)) in
    let a2 m := (- dph j (c m) + PI / 2)%R in
    let a3 m := (dph i (c m) - PI / 2)%R in
    let xa1 := imul_rows xa fidx1 k 1 (fun m => Cexp_i (a1 m)) in
    let xa2 := imul_rows xa1 fidx1 k 2 (fun m => Cexp_i (a2 m)) in
    imul_rows xa2 fidx1 k 3 (fun m => Cexp_i (a3 m))
  else xa.

(** Lines 192-200: the delay-phase correction, in place on [data['x']]. *)
Definition delay_phase (dph : nat -> nat -> R) (fidx1 fidx2 : list nat) (xa : XArr)
  : XArr :=
  fold_left (delay_step dph fidx1 fidx2) (enumerate get_bl_order) xa.

(** Body of the inner loop of lines 205-214: reads [dx] (= [data['x']]),
    writes [cx] (= [cdata['x']]). *)
Definition rot_step (chi : nat -> nat -> R) (dx : XArr) (n : nat)
    (cx : XArr) (kb : nat * (nat * nat)) : XArr :=
  let '(k, (i, j)) := kb in
  if corrected_bl i j then
    let dchi := (chi n i - chi n j)%R in
    let cchi := cos dchi in
    let schi := sin dchi in
    fun f k' p n' =>
      if (k' =? k) && (n' =? n) then
        match p with
        | 0 => (dx f k 0%nat n *r cchi + dx f k 3%nat n *r schi)%C
        | 2 => (dx f k 2%nat n *r cchi + dx f k 1%nat n *r schi)%C
        | 3 => (dx f k 3%nat n *r cchi - dx f k 0%nat n *r schi)%C
        | 1 => (dx f k 1%nat n *r cchi - dx f k 2%nat n *r schi)%C
        | _ => cx f k' p n'
        end
      else cx f k' p n'
  else cx.

(** Lines 203-214: [cdata = copy.deepcopy(data)] and the rotation loops over
    [n in range(nt)] and the baselines. *)
Definition feed_rotation (chi : nat -> nat -> R) (nt : nat) (dx : XArr) : XArr :=
  fold_left (fun cx n => fold_left (rot_step chi dx n) (enumerate get_bl_order) cx)
            (seq 0 nt) dx.

(** What the caller of unrot holds: the dataset dictionary, and the geometry
    dictionary when one is passed. *)
Record Store : Type := mkStore {
  caller_data : Dataset;
  caller_azel : option AzelDict
}.

Definition set_x (d : Dataset) (xa : XArr) : Dataset :=
  mkDataset (time d) (fghz d) xa (px d) (py d) (masked_keys d).

Definition set_chi (a : AzelDict) (chi : nat -> nat -> R) : AzelDict :=
  mkAzelDict chi (azel_nt a) (ActualAzimuth0 a) (azTime a).

(** The delay-phase table restricted to the non-zero calibration
    frequencies: [dph[:,good]]. *)
Definition dph_good (cal : XYCal) : nat -> nat -> R :=
  fun i m => XYphase cal i (nth m (nonzero_idx (cal_fghz cal)) 0).

(** [fghz[good]] *)
Definition fghz_good (cal : XYCal) : list Q :=
  map (fun g => nth g (cal_fghz cal) 0%Q) (nonzero_idx (cal_fghz cal)).

Section Unrot.

(** The providers: [get_sql_info(trange)] and the decoded record of
    [ch.read_cal(11, t=trange[0])]. *)
Variable get_sql_info : R * R -> AzelDict.
Variable read_xycal : R -> XYCal.

(** The geometry dictionary unrot works on. *)
Definition azel_used (st : Store) (trange : R * R) : AzelDict :=
  match caller_azel st with
  | Some a => a
  | None => get_sql_info trange
  end.

(** The caller's store once line 173 has run. *)
Definition store_chi (st : Store) (chi : nat -> nat -> R) : Store :=
  mkStore (caller_data st)
          (match caller_azel st with
           | Some a => Some (set_chi a chi)
           | None => None
           end).

(** The dataset [cdata] as it stands when line 216 is reached: the deep copy
    of the delay-phase corrected [data], with [x] rewritten by the rotation
    loops. *)
Definition unrot_cdata (data : Dataset) (azeldict : AzelDict) (cal : XYCal)
  : Dataset :=
  let chi := correct_chi (ParallacticAngle azeldict) in
  let fidx := common_val_idx (fghz data) (fghz_good cal) in
  let x1 := delay_phase (dph_good cal) (fst fidx) (snd fidx) (x data) in
  set_x data (feed_rotation chi (length (time data)) x1).

(** [unrot(data, azeldict)]: the outcome of the call and the caller's
    objects after it. *)
Definition unrot (st : Store) : result Dataset * Store :=
  let data := caller_data st in
  match time data with
  | [] => (Raise IndexError, st)                (* data['time'][[0,-1]] *)
  | t0 :: _ =>
      let trange := (t0, last (time data) t0) in
      let azeldict := azel_used st trange in
      let chi := correct_chi (ParallacticAngle azeldict) in
      let st1 := store_chi st chi in
      match nonzero_idx_R (ActualAzimuth0 azeldict) with
      | [] => (Raise NoValidGeometrySample, st1)   (* nearest index among no samples *)
      | _ =>
          (* tidx = nearest_val_idx(...) is computed here and not used below *)
          let cal := read_xycal t0 in
          let fidx := common_val_idx (fghz data) (fghz_good cal) in
          let missing := setdiff1d_arange (length (fghz data)) (fst fidx) in
          (* lines 192-200 write data['x'] itself *)
          let x1 := delay_phase (dph_good cal) (fst fidx) (snd fidx) (x data) in
          let st2 := mkStore (set_x data x1) (caller_azel st1) in
          if azel_nt azeldict <? length (time data)
          then (Raise IndexError, st2)                             (* chi[n,i] *)
          else (dict_setitem_masked (unrot_cdata data azeldict cal)
                                    (KNdarray missing), st2)
      end
  end.

End Unrot.

(** One sample of the rotation of lines 211-214, from the array [dx] the
    loop reads. *)
Definition rot_val (chi : nat -> nat -> R) (dx : XArr) (i j f k p n : nat) : C :=
  let dchi := (chi n i - chi n j)%R in
  match p with
  | 0 => (dx f k 0%nat n *r cos dchi + dx f k 3%nat n *r sin dchi)%C
  | 1 => (dx f k 1%nat n *r cos dchi - dx f k 2%nat n *r sin dchi)%C
  | 2 => (dx f k 2%nat n *r cos dchi + dx f k 1%nat n *r sin dchi)%C
  | 3 => (dx f k 3%nat n *r cos dchi - dx f k 0%nat n *r sin dchi)%C
  | _ => dx f k p n
  end.

(** The inputs on which unrot reaches line 216: a first time sample, a
    geometry sample with non-zero azimuth, and a geometry row for every
    data time. *)
Definition unrot_input_ok (data : Dataset) (azeldict : AzelDict) : Prop :=
  time data <> [] /\
  nonzero_idx_R (ActualAzimuth0 azeldict) <> [] /\
  length (time data) <= azel_nt azeldict.

(** Membership in the equatorial-mount list without the reference. *)
Definition equatorial (a : nat) : bool :=
  (a =? 8) || (a =? 9) || (a =? 10) || (a =? 12).

(** ** Concrete inputs *)

Module Examples.

Definition ones_x : XArr := fun _ _ _ _ => C1.
Definition ones_p : PArr := fun _ _ _ _ => 1%R.

(** One frequency (1 GHz), two time samples, unit visibilities. *)
Definition unit_data : Dataset :=
  mkDataset [0%R; 1%R] [1%Q] ones_x ones_p ones_p [].

(** The same at 1.9 GHz. *)
Definition data_1p9 : Dataset :=
  mkDataset [0%R; 1%R] [(19 # 10)%Q] ones_x ones_p ones_p [].

(** A gain state with zero component tables and the given attenuator
    settings. *)
Definition flat_gain (ts : list R) (d : nat -> nat -> nat -> R) : GainState :=
  mkGainState ts (fun _ _ => 0%R) (fun _ _ => 0%R) (fun _ _ => 0%R)
              (fun _ _ => 0%R) d.

Definition ref_gs0 : GainState := flat_gain [0%R] (fun _ _ _ => 0%R).
Definition src_gs0 : GainState := flat_gain [0%R; 1%R] (fun _ _ _ => 0%R).

(** 6 dB more attenuation on antenna 0, polarization H, in every band. *)
Definition src_gs6 : GainState :=
  flat_gain [0%R; 1%R]
            (fun i p _ => if (i =? 0) && (p =? 0) then 6%R else 0%R).

(** Geometry with all parallactic angles zero, two valid samples. *)
Definition azel0 : AzelDict :=
  mkAzelDict (fun _ _ => 0%R) 2 [1%R; 1%R] [0%R; 1%R].

(** Geometry with angle 7 on antenna 8 and 5 on antenna 13. *)
Definition azel_eq : AzelDict :=
  mkAzelDict (fun _ a => if a =? 8 then 7%R else if a =? 13 then 5%R else 0%R)
             2 [1%R; 1%R] [0%R; 1%R].

(** Delay-phase record at 1 GHz with zero phases, and one at 2 GHz. *)
Definition cal0 : XYCal := mkXYCal [1%Q] (fun _ _ => 0%R).
Definition cal_2ghz : XYCal := mkXYCal [2%Q] (fun _ _ => 0%R).

Definition sql0 : R * R -> AzelDict := fun _ => azel0.
Definition read_cal0 : R -> XYCal := fun _ => cal0.
Definition read_cal_2ghz : R -> XYCal := fun _ => cal_2ghz.

Definition store0 : Store := mkStore unit_data (Some azel0).
Definition store_eq : Store := mkStore unit_data (Some azel_eq).

End Examples.

(** ** The baseline order in closed form *)

(** The pairs at most 8 antennas apart, by second antenna and then by first. *)
Definition bl_short : list (nat * nat) :=
  flat_map (fun i => map (fun k => (k, i)) (seq (i - 8) (Nat.min i 8 + 1)))
           (seq 0 16).

(** The pairs 9 or more antennas apart, by first antenna and then by second. *)
Definition bl_long : list (nat * nat) :=
  flat_map (fun i => map (fun k => (i, k)) (seq (i + 9) (7 - i))) (seq 0 7).

(** ** Squared modulus *)

Definition Cnorm2 (a : C) : R := (Re a * Re a + Im a * Im a)%R.

(** ** get_calfac *)

(** One element of [xml['Antenna']] of the total-power calibration record
    (type 10), decoded: the antenna number and its four tables, each indexed
    [polarization, frequency]. *)
Record AntCal : Type := mkAntCal {
  Antnum : Z;
  TPCalfac : nat -> nat -> R;
  ACCalfac : nat -> nat -> R;
  TPOffsun : nat -> nat -> R;
  ACOffsun : nat -> nat -> R
}.

(** The decoded record of [ch.read_cal(10, t=t)]. *)
Record TPCalRecord : Type := mkTPCalRecord {
  tp_fghz : list Q;                    (* 'FGHz' *)
  tp_timestamp : R;                    (* 'Timestamp' *)
  tp_antennas : list AntCal            (* 'Antenna' *)
}.

(** The four arrays of shape (13,2,nf) that the loop fills, indexed
    [antenna, polarization, frequency]. *)
Record CalTables : Type := mkCalTables {
  tpcalfac : nat -> nat -> nat -> R;
  tpoffsun : nat -> nat -> nat -> R;
  accalfac : nat -> nat -> nat -> R;
  acoffsun : nat -> nat -> nat -> R
}.

(** The dictionary get_calfac returns. *)
Record CalFac : Type := mkCalFac {
  cf_fghz : list Q;
  cf_timestamp : R;
  cf_tables : CalTables
}.

Definition zero_tables : CalTables :=
  mkCalTables (fun _ _ _ => 0%R) (fun _ _ _ => 0%R)
              (fun _ _ _ => 0%R) (fun _ _ _ => 0%R).

(** [tab[iant] = v] *)
Definition set_ant (tab : nat -> nat -> nat -> R) (iant : nat) (v : nat -> nat -> R)
  : nat -> nat -> nat -> R :=
  fun a p f => if a =? iant then v p f else tab a p f.

(** Lines 144-147 for one antenna. *)
Definition store_ant (t : CalTables) (iant : nat) (e : AntCal) : CalTables :=
  mkCalTables (set_ant (tpcalfac t) iant (TPCalfac e))
              (set_ant (tpoffsun t) iant (TPOffsun e))
              (set_ant (accalfac t) iant (ACCalfac e))
              (set_ant (acoffsun t) iant (ACOffsun e)).

(** The loop of lines 142-147: [iant = Antnum - 1] indexes an axis of
    extent 13. *)
Fixpoint calfac_loop (ants : list AntCal) (t : CalTables) : result CalTables :=
  match ants with
  | [] => Ok t
  | e :: ants' =>
      iant <- of_option IndexError (py_index 13 (Antnum e - 1)) ;;
      calfac_loop ants' (store_ant t iant e)
  end.

(** [get_calfac(t)], on the record that [ch.read_cal(10, t=t)] gives. *)
Definition get_calfac (rec : TPCalRecord) : result CalFac :=
  t <- calfac_loop (tp_antennas rec) zero_tables ;;
  Ok (mkCalFac (tp_fghz rec) (tp_timestamp rec) t).

(** Antenna numbers that index the 13 slots: 1..13, and 0 down to -12 from
    the end. *)
Definition antnum_ok (e : AntCal) : bool :=
  ((-12 <=? Antnum e) && (Antnum e <=? 13))%Z.

(** Slot [s] of the four tables holds the given [polarization, frequency]
    tables. *)
Definition slot_is (t : CalTables) (s : nat)
    (tp tpo ac aco : nat -> nat -> R) : Prop :=
  forall p f,
    tpcalfac t s p f = tp p f /\ tpoffsun t s p f = tpo p f /\
    accalfac t s p f = ac p f /\ acoffsun t s p f = aco p f.

(** ** More concrete inputs *)

Module MoreExamples.

(** A gain state constant in time: component tables 1, 2, 3, 4 and
    attenuator setting 5, at two times. *)
Definition gain_a : GainState :=
  mkGainState [0%R; 1%R] (fun _ _ => 1%R) (fun _ _ => 2%R) (fun _ _ => 3%R)
              (fun _ _ => 4%R) (fun _ _ _ => 5%R).

Definition gain_a_const : RefGain :=
  mkRefGain (fun _ => 1%R) (fun _ => 2%R) (fun _ => 3%R) (fun _ => 4%R)
            (fun _ _ _ => 5%R).

Definition gain_zero_const : RefGain :=
  mkRefGain (fun _ => 0%R) (fun _ => 0%R) (fun _ => 0%R) (fun _ => 0%R)
            (fun _ _ _ => 0%R).

(** A dataset at 18 GHz and one at 0.7 GHz. *)
Definition data_18 : Dataset :=
  mkDataset [0%R; 1%R] [18%Q] Examples.ones_x Examples.ones_p Examples.ones_p [].

Definition data_0p7 : Dataset :=
  mkDataset [0%R; 1%R] [(7 # 10)%Q] Examples.ones_x Examples.ones_p
            Examples.ones_p [].

(** Total-power records: antennas 1 and 3; antenna 0; antenna 14; antenna 2
    twice. *)
Definition ant (n : Z) (v : R) : AntCal :=
  mkAntCal n (fun _ _ => v) (fun _ _ => v) (fun _ _ => v) (fun _ _ => v).

Definition tp_rec (ants : list AntCal) : TPCalRecord :=
  mkTPCalRecord [1%Q] 0%R ants.

End MoreExamples.

(** * Properties *)

Unset Implicit Arguments.

(** ** Complex arithmetic *)

Section ComplexFacts.

Local Open Scope R_scope.

Lemma C_eq (a b : C) : Re a = Re b -> Im a = Im b -> a = b.
Proof. destruct a, b; simpl; intros -> ->; reflexivity. Qed.

Lemma Cscale_1 (a : C) : Cscale a 1 = a.
Proof. apply C_eq; simpl; lra. Qed.

Lemma Cscale_0 (a : C) : Cscale a 0 = C0.
Proof. apply C_eq; simpl; lra. Qed.

Lemma Cmul_1_r (a : C) : Cmul a C1 = a.
Proof. apply C_eq; simpl; lra. Qed.

Lemma Cexp_i_0 : Cexp_i 0 = C1.
Proof. unfold Cexp_i, C1. rewrite cos_0, sin_0. reflexivity. Qed.

Lemma Cexp_i_PI2 : Cexp_i (PI / 2) = Ci.
Proof. unfold Cexp_i, Ci. rewrite cos_PI2, sin_PI2. reflexivity. Qed.

Lemma C1_neq_C0 : C1 <> C0.
Proof. intros H. apply (f_equal Re) in H. simpl in H. lra. Qed.

End ComplexFacts.

(** ** Loops over enumerated lists *)

Section EnumFolds.

Variables (V B : Type).

Lemma enumerate_length (l : list B) : length (enumerate l) = length l.
Proof.
  unfold enumerate. rewrite length_combine, length_seq. apply Nat.min_id.
Qed.

(** A loop body that writes baseline [k] only, from what baseline [k]
    holds. *)
Variable step : (nat -> nat -> nat -> nat -> V) -> nat * B ->
                nat -> nat -> nat -> nat -> V.
Hypothesis step_other : forall acc k b f k' p t,
    k' <> k -> step acc (k, b) f k' p t = acc f k' p t.
Hypothesis step_self : forall acc acc' k b,
    (forall f p t, acc f k p t = acc' f k p t) ->
    forall f p t, step acc (k, b) f k p t = step acc' (k, b) f k p t.

Lemma fold_bl_from (l : list B) : forall s a f k p t,
    fold_left step (combine (seq s (length l)) l) a f k p t =
    match nth_error l (k - s) with
    | Some b => if s <=? k then step a (k, b) f k p t else a f k p t
    | None => a f k p t
    end.
Proof.
  induction l as [|b l IH]; intros s a f k p t.
  - cbn [length seq combine fold_left]. destruct (k - s); reflexivity.
  - cbn [length seq combine fold_left]. rewrite IH.
    destruct (Nat.leb_spec s k) as [Hle|Hgt].
    + destruct (Nat.eq_dec k s) as [->|Hne].
      * rewrite Nat.sub_diag. replace (s - S s) with 0 by lia.
        cbn [nth_error].
        destruct (Nat.leb_spec (S s) s) as [Hbad|_]; [lia|].
        destruct l; reflexivity.
      * replace (k - s) with (S (k - S s)) by lia. cbn [nth_error].
        destruct (Nat.leb_spec (S s) k) as [_|Hbad]; [|lia].
        destruct (nth_error l (k - S s)) as [b'|].
        -- apply step_self. intros. apply step_other. assumption.
        -- apply step_other. assumption.
    + replace (k - S s) with 0 by lia. replace (k - s) with 0 by lia.
      cbn [nth_error].
      destruct (Nat.leb_spec (S s) k) as [Hbad|_]; [lia|].
      assert (Hne : k <> s) by lia.
      destruct l; apply step_other; assumption.
Qed.

Lemma fold_bl_at (l : list B) a f k p t b :
  nth_error l k = Some b ->
  fold_left step (enumerate l) a f k p t = step a (k, b) f k p t.
Proof.
  intros H. unfold enumerate. rewrite fold_bl_from, Nat.sub_0_r, H. reflexivity.
Qed.

Lemma fold_bl_beyond (l : list B) a f k p t :
  length l <= k ->
  fold_left step (enumerate l) a f k p t = a f k p t.
Proof.
  intros H. unfold enumerate. rewrite fold_bl_from, Nat.sub_0_r.
  apply nth_error_None in H. rewrite H. reflexivity.
Qed.

End EnumFolds.

(** ** The baseline order *)

Lemma pair_eqb_eq (a b : nat * nat) : pair_eqb a b = true <-> a = b.
Proof.
  destruct a as [a1 a2], b as [b1 b2]. unfold pair_eqb. simpl.
  rewrite andb_true_iff, !Nat.eqb_eq. split.
  - intros [-> ->]. reflexivity.
  - intros H. inversion H. auto.
Qed.

Lemma pair_in_In (o : nat * nat) (l : list (nat * nat)) :
  pair_in o l = true <-> In o l.
Proof.
  unfold pair_in. rewrite existsb_exists. split.
  - intros [y [Hy He]]. apply pair_eqb_eq in He. subst. assumption.
  - intros H. exists o. split; [assumption | apply pair_eqb_eq; reflexivity].
Qed.

Lemma distinctb_NoDup (l : list (nat * nat)) : distinctb l = true -> NoDup l.
Proof.
  induction l as [|o l IH]; simpl; intros H.
  - constructor.
  - apply andb_true_iff in H. destruct H as [Hn Hd]. constructor.
    + intros Hin. apply pair_in_In in Hin. rewrite Hin in Hn. discriminate.
    + apply IH. assumption.
Qed.

Lemma all_pairs_In (a b : nat) : a <= b < n_ants -> In (a, b) all_pairs.
Proof.
  intros [Hab Hb]. unfold all_pairs. apply in_flat_map. exists a. split.
  - apply in_seq. lia.
  - apply in_map_iff. exists b. split; [reflexivity | apply in_seq; lia].
Qed.

Lemma get_bl_order_length : length get_bl_order = 136.
Proof. vm_compute. reflexivity. Qed.

Lemma get_bl_order_range (i j : nat) :
  In (i, j) get_bl_order -> i <= j /\ j < 16.
Proof.
  intros H.
  assert (Hall : forallb (fun o => (fst o <=? snd o) && (snd o <? 16)) get_bl_order = true)
    by (vm_compute; reflexivity).
  rewrite forallb_forall in Hall. specialize (Hall _ H). simpl in Hall.
  apply andb_true_iff in Hall. destruct Hall as [H1 H2].
  apply Nat.leb_le in H1. apply Nat.ltb_lt in H2. split; assumption.
Qed.

(** C6: get_bl_order returns exactly 136 antenna pairs, pairwise distinct,
    which are exactly the unordered pairs (self-pairs included) of the 16
    antennas, and the list is the one the stated algorithm produces (list A
    of the pairs [(k, i)] with [i >= k], then list B of the pairs [(i, k)]
    without those already in A).  The function takes no argument and reads
    no state: every call evaluates this one list. *)
Theorem get_bl_order_136_distinct :
  length get_bl_order = 136 /\
  NoDup get_bl_order /\
  (forall a b, In (a, b) get_bl_order <-> a <= b /\ b < 16) /\
  get_bl_order = BaselineOrderSpec.order.
Proof.
  split; [exact get_bl_order_length|].
  split; [apply distinctb_NoDup; vm_compute; reflexivity|].
  split.
  - intros a b. split.
    + apply get_bl_order_range.
    + intros H. apply pair_in_In.
      assert (Hall : forallb (fun o => pair_in o get_bl_order) all_pairs = true)
        by (vm_compute; reflexivity).
      rewrite forallb_forall in Hall. apply Hall. apply all_pairs_In. exact H.
  - vm_compute. reflexivity.
Qed.

(** ** Index helpers *)

Lemma py_index_lt (n : nat) (b : Z) (m : nat) : py_index n b = Some m -> m < n.
Proof.
  unfold py_index.
  destruct ((0 <=? b)%Z && (b <? Z.of_nat n)%Z) eqn:E1.
  - intros H. inversion H. subst m. clear H.
    apply andb_true_iff in E1. destruct E1 as [H0 H1].
    apply Z.leb_le in H0. apply Z.ltb_lt in H1. lia.
  - destruct ((- Z.of_nat n <=? b)%Z && (b <? 0)%Z) eqn:E2; [|discriminate].
    intros H. inversion H. subst m. clear H.
    apply andb_true_iff in E2. destruct E2 as [H0 H1].
    apply Z.leb_le in H0. apply Z.ltb_lt in H1. lia.
Qed.

Lemma mapM_Ok_nth (A B : Type) (f : A -> result B) (l : list A) :
  forall bs, mapM f l = Ok bs ->
  length bs = length l /\
  forall n da db, n < length l -> f (nth n l da) = Ok (nth n bs db).
Proof.
  induction l as [|a l IH]; simpl; intros bs H.
  - inversion H. split; [reflexivity | intros; lia].
  - destruct (f a) as [b|e] eqn:Ea; simpl in H; [|discriminate].
    destruct (mapM f l) as [bs'|e] eqn:El; simpl in H; [|discriminate].
    inversion H. subst bs. clear H.
    destruct (IH bs' eq_refl) as [Hlen Hnth]. split.
    + simpl. rewrite Hlen. reflexivity.
    + intros [|n] da db Hn; simpl.
      * assumption.
      * apply Hnth. simpl in Hn. lia.
Qed.

Lemma mapM_Ok_forall (A B : Type) (f : A -> result B) (l : list A) :
  (forall a, In a l -> exists b, f a = Ok b) -> exists bs, mapM f l = Ok bs.
Proof.
  induction l as [|a l IH]; simpl; intros H.
  - eexists. reflexivity.
  - destruct (H a (or_introl eq_refl)) as [b Hb].
    destruct IH as [bs Hbs]; [intros; apply H; right; assumption|].
    exists (b :: bs). rewrite Hb. simpl. rewrite Hbs. reflexivity.
Qed.

Lemma mapM_Raise_exists (A B : Type) (f : A -> result B) (l : list A) e :
  mapM f l = Raise e -> exists a, In a l /\ f a = Raise e.
Proof.
  induction l as [|a l IH]; simpl; intros H.
  - discriminate.
  - destruct (f a) as [b|e'] eqn:Ea; simpl in H.
    + destruct (mapM f l) as [bs|e'] eqn:El; simpl in H; [discriminate|].
      inversion H. subst e'.
      destruct (IH eq_refl) as [a' [Hin Ha']]. exists a'. auto.
    + inversion H. subst e'. exists a. auto.
Qed.

Lemma nearest_from_lt (v : R) (b : list R) : forall pos best d,
    best < pos -> nearest_from v b pos best d < pos + length b.
Proof.
  induction b as [|y b IH]; simpl; intros pos best d H.
  - lia.
  - destruct (Rlt_dec (Rabs (y - v)) d).
    + specialize (IH (S pos) pos (Rabs (y - v))). lia.
    + specialize (IH (S pos) best d). lia.
Qed.

Lemma nearest_one_lt (v : R) (b : list R) : b <> [] -> nearest_one v b < length b.
Proof.
  destruct b as [|y b]; [congruence|]. intros _. simpl.
  pose proof (nearest_from_lt v b 1 0 (Rabs (y - v))). lia.
Qed.

Lemma nearest_val_idx_nth (a b : list R) (t : nat) :
  t < length a -> b <> [] -> nth t (nearest_val_idx a b) 0 < length b.
Proof.
  intros Ht Hb. unfold nearest_val_idx.
  rewrite (nth_indep _ 0 (nearest_one 0%R b)) by (rewrite length_map; assumption).
  rewrite (map_nth (fun v => nearest_one v b) a 0%R t). apply nearest_one_lt. assumption.
Qed.

(** ** Facts about apply_attn_corr *)

Lemma blgain_step_other ag band acc k b f k' p t :
  k' <> k -> blgain_step ag band acc (k, b) f k' p t = acc f k' p t.
Proof.
  intros Hne. destruct b as [i j]. unfold blgain_step.
  destruct ((i <? 15) && (j <? 15)); [|reflexivity].
  apply Nat.eqb_neq in Hne. rewrite Hne. reflexivity.
Qed.

Lemma blgain_step_self ag band acc acc' k b :
  (forall f p t, acc f k p t = acc' f k p t) ->
  forall f p t, blgain_step ag band acc (k, b) f k p t
                = blgain_step ag band acc' (k, b) f k p t.
Proof.
  intros H f p t. destruct b as [i j]. unfold blgain_step.
  destruct ((i <? 15) && (j <? 15)); [|apply H].
  rewrite Nat.eqb_refl.
  destruct p as [|[|[|[|p]]]]; try reflexivity. apply H.
Qed.

Lemma blgain_corrected ag band f k p t i j :
  nth_error get_bl_order k = Some (i, j) -> i < 15 -> j < 15 -> p < 4 ->
  blgain ag band f k p t
  = pow10 ((ag i (pol_i p) (band f) t + ag j (pol_j p) (band f) t) / 20).
Proof.
  intros Hk Hi Hj Hp. unfold blgain.
  rewrite (fold_bl_at _ _ (blgain_step ag band) (blgain_step_other ag band)
             (blgain_step_self ag band) get_bl_order _ f k p t (i, j) Hk).
  unfold blgain_step.
  apply Nat.ltb_lt in Hi. apply Nat.ltb_lt in Hj. rewrite Hi, Hj. simpl.
  rewrite Nat.eqb_refl.
  destruct p as [|[|[|[|p]]]]; try reflexivity. lia.
Qed.

Lemma blgain_skipped ag band f k p t i j :
  nth_error get_bl_order k = Some (i, j) -> 15 <= i \/ 15 <= j ->
  blgain ag band f k p t = 0%R.
Proof.
  intros Hk Hij. unfold blgain.
  rewrite (fold_bl_at _ _ (blgain_step ag band) (blgain_step_other ag band)
             (blgain_step_self ag band) get_bl_order _ f k p t (i, j) Hk).
  unfold blgain_step.
  destruct ((i <? 15) && (j <? 15)) eqn:E; [|reflexivity].
  apply andb_true_iff in E. destruct E as [E1 E2].
  apply Nat.ltb_lt in E1. apply Nat.ltb_lt in E2. lia.
Qed.

Lemma pol_i_lt (p : nat) : pol_i p < 2.
Proof. destruct p as [|[|[|p]]]; simpl; lia. Qed.

Lemma pol_j_lt (p : nat) : pol_j p < 2.
Proof. destruct p as [|[|[|p]]]; simpl; lia. Qed.

Lemma antgain_split src_gs ref_gs i pol b t :
  i < 15 -> pol < 2 -> b < 34 ->
  antgain src_gs ref_gs i pol b t
  = (comp_diff src_gs ref_gs i pol t + attn_diff src_gs ref_gs i pol b)%R.
Proof.
  intros Hi Hp Hb. unfold antgain, comp_diff, attn_diff.
  apply Nat.ltb_lt in Hi. apply Nat.ltb_lt in Hb. rewrite Hi, Hb. simpl.
  destruct pol as [|[|pol]]; [lra | lra | lia].
Qed.

Lemma antgain_same_state src_gs ref_gs i pol b t :
  same_gain_state src_gs ref_gs ->
  i < 15 -> pol < 2 -> b < 34 -> t < length (times src_gs) ->
  antgain src_gs ref_gs i pol b t = 0%R.
Proof.
  intros [Hh Hd] Hi Hp Hb Ht. rewrite antgain_split by assumption.
  unfold comp_diff, attn_diff. rewrite (Hd i pol b Hi Hp Hb).
  destruct (Hh i t Hi Ht) as [E1 [E2 [E3 E4]]].
  destruct pol; [rewrite E1, E2 | rewrite E3, E4]; lra.
Qed.

Lemma pow10_0 : pow10 0 = 1%R.
Proof. unfold pow10. apply Rpower_O. lra. Qed.

Lemma forallb_band_ok (l : list Q) :
  forallb band_ok l = true -> exists bl, blist_idx l = Ok bl.
Proof.
  intros H. unfold blist_idx, blist. apply mapM_Ok_forall.
  intros b Hb. apply in_map_iff in Hb. destruct Hb as [q [<- Hq]].
  rewrite forallb_forall in H. specialize (H q Hq). unfold band_ok in H.
  destruct (py_index 34 (band_of q)) as [m|]; [|discriminate].
  exists m. reflexivity.
Qed.

Lemma blist_idx_nth (l : list Q) (bl : list nat) (f : nat) :
  blist_idx l = Ok bl -> f < length l ->
  py_index 34 (band_of (nth f l 0%Q)) = Some (nth f bl 0) /\ nth f bl 0 < 34.
Proof.
  intros H Hf. unfold blist_idx, blist in H.
  apply mapM_Ok_nth in H. destruct H as [_ Hn].
  specialize (Hn f (band_of 0%Q) 0).
  rewrite length_map in Hn. specialize (Hn Hf).
  rewrite map_nth in Hn.
  destruct (py_index 34 (band_of (nth f l 0%Q))) as [m|] eqn:E;
    simpl in Hn; [|discriminate].
  inversion Hn as [Hm]. split; [reflexivity|].
  rewrite <- Hm. apply (py_index_lt _ _ _ E).
Qed.

(** On the inputs of [attn_input_ok], apply_attn_corr returns, and this is
    what it returns. *)
Lemma apply_attn_corr_returns data ref_gs src_gs :
  attn_input_ok data src_gs = true ->
  exists bl,
    blist_idx (fghz data) = Ok bl /\
    apply_attn_corr data ref_gs src_gs =
    let ag := antgain src_gs (ref_median ref_gs) in
    let band f := nth f bl 0 in
    let it t := nth t (nearest_val_idx (time data) (times src_gs)) 0 in
    let row r := if length (fghz data) =? 1 then 0 else r in
    let antgainf := fun f a p t => pow10 (ag a p (band f) t / 10) in
    Ok (mkDataset (time data) (fghz data)
          (fun f k p t => (x data f k p t *r blgain ag band f k p (it t))%C)
          (power_corr (px data) 0 antgainf row it)
          (power_corr (py data) 1 antgainf row it)
          (masked_keys data)).
Proof.
  unfold attn_input_ok. intros H.
  apply andb_true_iff in H. destruct H as [H Hb].
  apply andb_true_iff in H. destruct H as [H Hnf].
  apply andb_true_iff in H. destruct H as [H2 Hnt].
  destruct (forallb_band_ok _ Hb) as [bl Hbl]. exists bl. split; [assumption|].
  unfold apply_attn_corr.
  apply Nat.leb_le in H2.
  destruct (time data) as [|t0 [|t1 ts]] eqn:Et; simpl in H2; try lia.
  rewrite Hbl. cbn [bind]. rewrite Hnt, Hnf. reflexivity.
Qed.

(** Conversely, outside [attn_input_ok] the call raises. *)
Lemma apply_attn_corr_raises data ref_gs src_gs :
  attn_input_ok data src_gs = false ->
  exists e, apply_attn_corr data ref_gs src_gs = Raise e.
Proof.
  unfold attn_input_ok, apply_attn_corr. intros H.
  destruct (time data) as [|t0 [|t1 ts]] eqn:Et; [eexists; reflexivity ..|].
  destruct (blist_idx (fghz data)) as [bl|e] eqn:Ebl; [|eexists; reflexivity].
  cbn [bind].
  destruct (length (t0 :: t1 :: ts) =? length (times src_gs)) eqn:Ent;
    [|eexists; reflexivity].
  destruct ((length (fghz data) =? 134) || (length (fghz data) =? 1)) eqn:Enf;
    [|eexists; reflexivity].
  exfalso. simpl in H.
  assert (Hb : forallb band_ok (fghz data) = true).
  { apply forallb_forall. intros q Hq. unfold band_ok.
    destruct (In_nth _ _ 0%Q Hq) as [n [Hn Hnth]].
    unfold blist_idx, blist in Ebl. apply mapM_Ok_nth in Ebl.
    destruct Ebl as [_ Hx]. specialize (Hx n (band_of 0%Q) 0).
    rewrite length_map in Hx. specialize (Hx Hn). rewrite map_nth, Hnth in Hx.
    destruct (py_index 34 (band_of q)); [reflexivity | discriminate]. }
  rewrite Hb in H. discriminate.
Qed.

Lemma attn_times_nonempty data src_gs :
  attn_input_ok data src_gs = true -> times src_gs <> [].
Proof.
  unfold attn_input_ok. intros H.
  apply andb_true_iff in H. destruct H as [H _].
  apply andb_true_iff in H. destruct H as [H _].
  apply andb_true_iff in H. destruct H as [H2 Hnt].
  apply Nat.leb_le in H2. apply Nat.eqb_eq in Hnt.
  intros E. rewrite E in Hnt. simpl in Hnt. lia.
Qed.

Lemma attn_row_lt data src_gs (r : nat) :
  attn_input_ok data src_gs = true -> r < 134 ->
  (if length (fghz data) =? 1 then 0 else r) < length (fghz data).
Proof.
  unfold attn_input_ok. intros H Hr.
  apply andb_true_iff in H. destruct H as [H _].
  apply andb_true_iff in H. destruct H as [_ Hnf].
  destruct (length (fghz data) =? 1) eqn:E1.
  - apply Nat.eqb_eq in E1. lia.
  - rewrite orb_false_r in Hnf. apply Nat.eqb_eq in Hnf. lia.
Qed.

(** C7: on every input on which apply_attn_corr returns, and for every
    baseline (i, j) of the baseline order with i < 15 and j < 15, the
    returned x is the input x times 10 ** ((antgain[i, pol_i, band] +
    antgain[j, pol_j, band]) / 20), with the polarizations of the product
    (HH: H,H; VV: V,V; HV: H,V; VH: V,H), the band of the frequency and the
    gain time nearest to the data time; so when the component tables do not
    differ and the attenuator setting differs by 6 dB on one of the two
    antenna/polarization inputs and by nothing on the other, the factor is
    10 ** (6/20). *)
Theorem apply_attn_corr_baseline_gain data ref_gs src_gs :
  attn_input_ok data src_gs = true ->
  exists cdata,
    apply_attn_corr data ref_gs src_gs = Ok cdata /\
    forall f k i j p t,
      nth_error get_bl_order k = Some (i, j) -> i < 15 -> j < 15 -> p < 4 ->
      f < length (fghz data) -> t < length (time data) ->
      exists band g,
        py_index 34 (band_of (nth f (fghz data) 0%Q)) = Some band /\
        g = nth t (nearest_val_idx (time data) (times src_gs)) 0 /\
        g < length (times src_gs) /\
        let ref := ref_median ref_gs in
        x cdata f k p t
        = (x data f k p t *r
           pow10 ((antgain src_gs ref i (pol_i p) band g
                   + antgain src_gs ref j (pol_j p) band g) / 20))%C /\
        (comp_diff src_gs ref i (pol_i p) g = 0%R ->
         comp_diff src_gs ref j (pol_j p) g = 0%R ->
         (attn_diff src_gs ref i (pol_i p) band = 6%R /\
          attn_diff src_gs ref j (pol_j p) band = 0%R) \/
         (attn_diff src_gs ref i (pol_i p) band = 0%R /\
          attn_diff src_gs ref j (pol_j p) band = 6%R) ->
         x cdata f k p t = (x data f k p t *r pow10 (6 / 20))%C).
Proof.
  intros Hok.
  destruct (apply_attn_corr_returns data ref_gs src_gs Hok) as [bl [Hbl Hret]].
  eexists. split; [exact Hret|].
  intros f k i j p t Hk Hi Hj Hp Hf Ht.
  destruct (blist_idx_nth _ bl f Hbl Hf) as [Hband Hlt].
  exists (nth f bl 0), (nth t (nearest_val_idx (time data) (times src_gs)) 0).
  split; [exact Hband|]. split; [reflexivity|].
  split; [apply nearest_val_idx_nth;
          [exact Ht | apply (attn_times_nonempty _ _ Hok)]|].
  cbn zeta. cbn [x].
  rewrite (blgain_corrected _ _ f k p _ i j Hk Hi Hj Hp).
  split; [reflexivity|].
  intros Hci Hcj Hd.
  rewrite !antgain_split by (auto using pol_i_lt, pol_j_lt).
  rewrite Hci, Hcj. f_equal. f_equal.
  destruct Hd as [[-> ->]|[-> ->]]; lra.
Qed.

(** X21: when the source gain state is the reference gain state,
    apply_attn_corr returns a dataset with the input's time, fghz, px and
    py, and with the input's x on every baseline whose two antennas are
    among the first 15.  On the baselines with antenna index 15 the gain
    array still holds the 0 it was created with and the returned x is 0:
    there the identity that px and py keep for antenna 15 is lost. *)
Theorem apply_attn_corr_same_state data ref_gs src_gs :
  attn_input_ok data src_gs = true ->
  same_gain_state src_gs (ref_median ref_gs) ->
  exists cdata,
    apply_attn_corr data ref_gs src_gs = Ok cdata /\
    time cdata = time data /\ fghz cdata = fghz data /\
    (forall f k i j p t,
        nth_error get_bl_order k = Some (i, j) -> p < 4 ->
        f < length (fghz data) -> t < length (time data) ->
        (i < 15 -> j < 15 -> x cdata f k p t = x data f k p t) /\
        (15 <= i \/ 15 <= j -> x cdata f k p t = C0)) /\
    (forall r a m t,
        r < 134 -> a < 16 -> m < 3 -> t < length (time data) ->
        px cdata r a m t = px data r a m t /\
        py cdata r a m t = py data r a m t).
Proof.
  intros Hok Hsame.
  destruct (apply_attn_corr_returns data ref_gs src_gs Hok) as [bl [Hbl Hret]].
  eexists. split; [exact Hret|]. cbn zeta. cbn [time fghz x px py].
  split; [reflexivity|]. split; [reflexivity|].
  assert (Hit : forall t, t < length (time data) ->
            nth t (nearest_val_idx (time data) (times src_gs)) 0
            < length (times src_gs)).
  { intros t Ht. apply nearest_val_idx_nth;
      [exact Ht | apply (attn_times_nonempty _ _ Hok)]. }
  split.
  - intros f k i j p t Hk Hp Hf Ht.
    destruct (blist_idx_nth _ bl f Hbl Hf) as [_ Hlt]. split.
    + intros Hi Hj. rewrite (blgain_corrected _ _ f k p _ i j Hk Hi Hj Hp).
      rewrite !(antgain_same_state _ _ _ _ _ _ Hsame) by (auto using pol_i_lt, pol_j_lt).
      replace ((0 + 0) / 20)%R with 0%R by lra.
      rewrite pow10_0. apply Cscale_1.
    + intros Hij. rewrite (blgain_skipped _ _ f k p _ i j Hk Hij). apply Cscale_0.
  - intros r a m t Hr Ha Hm Ht. unfold power_corr.
    destruct (a <? 15) eqn:Ea; [|split; reflexivity].
    apply Nat.ltb_lt in Ea.
    pose proof (attn_row_lt data src_gs r Hok Hr) as Hrow.
    destruct (blist_idx_nth _ bl _ Hbl Hrow) as [_ Hlt].
    rewrite !(antgain_same_state _ _ _ _ _ _ Hsame) by (auto; lia).
    replace (0 / 10)%R with 0%R by lra. rewrite pow10_0.
    destruct m as [|[|m]]; split; try reflexivity; lra.
Qed.

Lemma median_single (c : R) : median [c] = c.
Proof. reflexivity. Qed.

Lemma same_gain_state_zero :
  same_gain_state Examples.src_gs0 (ref_median Examples.ref_gs0).
Proof.
  split.
  - intros i t _ _. simpl. unfold median_rows. simpl. rewrite median_single.
    auto.
  - intros i p b _ _ _. reflexivity.
Qed.

Lemma bl_order_1 : nth_error get_bl_order 1 = Some (0, 1).
Proof. reflexivity. Qed.

Lemma bl_order_114 : nth_error get_bl_order 114 = Some (0, 15).
Proof. reflexivity. Qed.

(** The 6 dB scenario: antenna 0 (H) is attenuated 6 dB more than at the
    reference time, antenna 1 is not; baseline 1 = (0, 1), product HH. *)
Lemma apply_attn_corr_baseline_gain_witness :
  attn_input_ok Examples.unit_data Examples.src_gs6 = true /\
  exists cdata,
    apply_attn_corr Examples.unit_data Examples.ref_gs0 Examples.src_gs6 = Ok cdata /\
    x cdata 0 1 0 0 = (C1 *r pow10 (6 / 20))%C.
Proof.
  split; [reflexivity|].
  destruct (apply_attn_corr_baseline_gain Examples.unit_data Examples.ref_gs0
              Examples.src_gs6 eq_refl) as [cdata [Hret Hx]].
  exists cdata. split; [exact Hret|].
  destruct (Hx 0 1 0 1 0 0 bl_order_1) as [band [g [_ [_ [_ [_ H6]]]]]];
    try (simpl; lia).
  apply H6.
  - simpl. unfold median_rows. simpl. rewrite !median_single. lra.
  - simpl. unfold median_rows. simpl. rewrite !median_single. lra.
  - left. unfold attn_diff. simpl. split; lra.
Defined.

Lemma apply_attn_corr_same_state_witness :
  attn_input_ok Examples.unit_data Examples.src_gs0 = true /\
  same_gain_state Examples.src_gs0 (ref_median Examples.ref_gs0) /\
  exists cdata,
    apply_attn_corr Examples.unit_data Examples.ref_gs0 Examples.src_gs0 = Ok cdata /\
    x cdata 0 1 0 0 = C1 /\ x cdata 0 114 0 0 = C0.
Proof.
  split; [reflexivity|]. split; [exact same_gain_state_zero|].
  destruct (apply_attn_corr_same_state Examples.unit_data Examples.ref_gs0
              Examples.src_gs0 eq_refl same_gain_state_zero)
    as [cdata [Hret [_ [_ [Hx _]]]]].
  exists cdata. split; [exact Hret|]. split.
  - destruct (Hx 0 1 0 1 0 0 bl_order_1) as [H _]; try (simpl; lia).
    apply H; lia.
  - destruct (Hx 0 114 0 15 0 0 bl_order_114) as [_ H]; try (simpl; lia).
    apply H. right. lia.
Defined.

(** C2 fails on the code: with identical gain states and unit
    visibilities, the returned x on baseline 114 = (0, 15) is 0, not the
    input's 1.  The gain array is created with np.zeros and the guard
    i < 15 and j < 15 never writes the baselines of antenna 15, so their
    factor is 0 instead of the neutral 1 (px and py, a few lines below,
    leave antenna 15 as it came). *)
Lemma apply_attn_corr_same_state_zeroes_ant15 :
  same_gain_state Examples.src_gs0 (ref_median Examples.ref_gs0) /\
  nth_error get_bl_order 114 = Some (0, 15) /\
  exists cdata,
    apply_attn_corr Examples.unit_data Examples.ref_gs0 Examples.src_gs0 = Ok cdata /\
    x Examples.unit_data 0 114 0 0 = C1 /\
    x cdata 0 114 0 0 = C0 /\
    x cdata 0 114 0 0 <> x Examples.unit_data 0 114 0 0.
Proof.
  split; [exact same_gain_state_zero|]. split; [exact bl_order_114|].
  destruct (apply_attn_corr_returns Examples.unit_data Examples.ref_gs0
              Examples.src_gs0 eq_refl) as [bl [_ Hret]].
  eexists. split; [exact Hret|]. cbn zeta. cbn [x].
  rewrite (blgain_skipped _ _ 0 114 0 _ 0 15 bl_order_114) by (right; lia).
  cbn [Examples.unit_data x Examples.ones_x].
  rewrite Cscale_0.
  split; [reflexivity|]. split; [reflexivity|].
  intros H. symmetry in H. exact (C1_neq_C0 H).
Qed.

(** ** The band lookup *)

Lemma Qtrunc_nonneg (y : Q) :
  (0 <= y)%Q -> (inject_Z (Qtrunc y) <= y /\ y < inject_Z (Qtrunc y) + 1)%Q.
Proof.
  intros Hy.
  assert (E : Qtrunc y = Qfloor y).
  { destruct y as [n d]. unfold Qtrunc, Qfloor. simpl.
    apply Z.quot_div_nonneg; [|reflexivity].
    unfold Qle in Hy. simpl in Hy. lia. }
  rewrite E. split.
  - apply Qfloor_le.
  - change 1%Q with (inject_Z 1). rewrite <- inject_Z_plus. apply Qlt_floor.
Qed.

Lemma Qtrunc_nonpos (y : Q) :
  (y <= 0)%Q -> (inject_Z (Qtrunc y) - 1 < y /\ y <= inject_Z (Qtrunc y))%Q.
Proof.
  intros Hy.
  assert (E : Qtrunc y = Qceiling y).
  { destruct y as [n d]. unfold Qtrunc, Qceiling, Qfloor, Qopp. simpl.
    unfold Qle in Hy. simpl in Hy.
    replace n with (- - n)%Z at 1 by lia.
    rewrite Z.quot_opp_l by discriminate.
    rewrite Z.quot_div_nonneg; [reflexivity | lia | reflexivity]. }
  rewrite E. split.
  - apply Qle_lt_trans with (inject_Z (Qceiling y - 1)).
    + unfold Z.sub. rewrite inject_Z_plus. apply Qle_refl.
    + apply Qceiling_lt.
  - apply Qle_ceiling.
Qed.

(** C4, as the code has it: the band in which apply_attn_corr looks up the
    gains of frequency fghz is int(fghz*2 - 1) - 1, where the conversion to
    integer truncates toward zero: the band b satisfies b + 1 <= fghz*2 - 1
    < b + 2 when fghz*2 - 1 is not negative (and b < fghz*2 - 1 <= b + 1
    when it is not positive); the index is then taken in the 34-band axis
    as Python does. *)
Theorem apply_attn_corr_band_truncates data ref_gs src_gs :
  attn_input_ok data src_gs = true ->
  exists cdata,
    apply_attn_corr data ref_gs src_gs = Ok cdata /\
    forall f, f < length (fghz data) ->
      let q := nth f (fghz data) 0%Q in
      let b := (Qtrunc (q * 2 - 1) - 1)%Z in
      ((0 <= q * 2 - 1)%Q ->
         (inject_Z b + 1 <= q * 2 - 1 /\ q * 2 - 1 < inject_Z b + 2)%Q) /\
      ((q * 2 - 1 <= 0)%Q ->
         (inject_Z b < q * 2 - 1 /\ q * 2 - 1 <= inject_Z b + 1)%Q) /\
      exists band,
        py_index 34 b = Some band /\
        forall k i j p t,
          nth_error get_bl_order k = Some (i, j) -> i < 15 -> j < 15 -> p < 4 ->
          let g := nth t (nearest_val_idx (time data) (times src_gs)) 0 in
          let ref := ref_median ref_gs in
          x cdata f k p t
          = (x data f k p t *r
             pow10 ((antgain src_gs ref i (pol_i p) band g
                     + antgain src_gs ref j (pol_j p) band g) / 20))%C.
Proof.
  intros Hok.
  destruct (apply_attn_corr_returns data ref_gs src_gs Hok) as [bl [Hbl Hret]].
  eexists. split; [exact Hret|].
  intros f Hf q b.
  assert (Eb : (inject_Z b == inject_Z (Qtrunc (q * 2 - 1)) - 1)%Q).
  { unfold b, Z.sub. rewrite inject_Z_plus. reflexivity. }
  split; [|split].
  - intros Hy. destruct (Qtrunc_nonneg _ Hy) as [H1 H2]. rewrite Eb. split.
    + setoid_replace (inject_Z (Qtrunc (q * 2 - 1)) - 1 + 1)%Q
        with (inject_Z (Qtrunc (q * 2 - 1))) by ring. exact H1.
    + setoid_replace (inject_Z (Qtrunc (q * 2 - 1)) - 1 + 2)%Q
        with (inject_Z (Qtrunc (q * 2 - 1)) + 1)%Q by ring. exact H2.
  - intros Hy. destruct (Qtrunc_nonpos _ Hy) as [H1 H2]. rewrite Eb. split.
    + exact H1.
    + setoid_replace (inject_Z (Qtrunc (q * 2 - 1)) - 1 + 1)%Q
        with (inject_Z (Qtrunc (q * 2 - 1))) by ring. exact H2.
  - destruct (blist_idx_nth _ bl f Hbl Hf) as [Hband Hlt].
    exists (nth f bl 0). split; [exact Hband|].
    intros k i j p t Hk Hi Hj Hp. cbn zeta. cbn [x].
    rewrite (blgain_corrected _ _ f k p _ i j Hk Hi Hj Hp). reflexivity.
Qed.

Lemma apply_attn_corr_band_truncates_witness :
  attn_input_ok Examples.data_1p9 Examples.src_gs0 = true /\
  exists cdata,
    apply_attn_corr Examples.data_1p9 Examples.ref_gs0 Examples.src_gs0 = Ok cdata /\
    py_index 34 (Qtrunc ((19 # 10) * 2 - 1) - 1) = Some 1.
Proof.
  split; [reflexivity|].
  destruct (apply_attn_corr_band_truncates Examples.data_1p9 Examples.ref_gs0
              Examples.src_gs0 eq_refl) as [cdata [Hret _]].
  exists cdata. split; [exact Hret | reflexivity].
Defined.

(** C4 as stated fails: at 1.9 GHz the code looks up band 1, the rounded
    formula gives band 2. *)
Lemma band_truncated_not_rounded :
  blist (fghz Examples.data_1p9) = [1%Z] /\
  map band_rounded (fghz Examples.data_1p9) = [2%Z].
Proof. split; reflexivity. Qed.

(** ** The equatorial-mount correction of the parallactic angle *)

Lemma correct_chi_at (chi : nat -> nat -> R) (n a : nat) :
  correct_chi chi n a =
  if equatorial a then (chi n a - chi n 13%nat)%R
  else if a =? 13 then 0%R else chi n a.
Proof.
  unfold correct_chi, equatorial. cbn [fold_left]. unfold sub_ref_col.
  destruct (a =? 13) eqn:E13.
  - apply Nat.eqb_eq in E13. subst a. cbn. lra.
  - destruct (a =? 12) eqn:E12.
    + apply Nat.eqb_eq in E12. subst a. cbn. reflexivity.
    + destruct (a =? 10) eqn:E10.
      * apply Nat.eqb_eq in E10. subst a. cbn. reflexivity.
      * destruct (a =? 9) eqn:E9.
        -- apply Nat.eqb_eq in E9. subst a. cbn. reflexivity.
        -- destruct (a =? 8) eqn:E8.
           ++ apply Nat.eqb_eq in E8. subst a. cbn. reflexivity.
           ++ cbn. reflexivity.
Qed.

(** Once column 13 is zero, a further pass subtracts zero. *)
Lemma correct_chi_idempotent (chi : nat -> nat -> R) (n a : nat) :
  correct_chi (correct_chi chi) n a = correct_chi chi n a.
Proof.
  rewrite (correct_chi_at (correct_chi chi)).
  rewrite (correct_chi_at chi n 13). cbn [equatorial Nat.eqb orb].
  rewrite (correct_chi_at chi n a).
  destruct (equatorial a) eqn:Ee.
  - lra.
  - destruct (a =? 13); reflexivity.
Qed.

(** ** Phase factors *)

Section PhaseFacts.

Local Open Scope R_scope.

Lemma cos_sin_period_Z (a : R) (z : Z) :
  cos (a + 2 * PI * IZR z) = cos a /\ sin (a + 2 * PI * IZR z) = sin a.
Proof.
  destruct z as [|q|q].
  - replace (a + 2 * PI * 0) with a by lra. split; reflexivity.
  - rewrite <- (positive_nat_Z q), <- INR_IZR_INZ.
    replace (a + 2 * PI * INR (Pos.to_nat q))
      with (a + 2 * INR (Pos.to_nat q) * PI) by lra.
    split; [apply cos_period | apply sin_period].
  - change (Z.neg q) with (- Z.pos q)%Z. rewrite opp_IZR.
    rewrite <- (positive_nat_Z q), <- INR_IZR_INZ.
    set (b := a + 2 * PI * - INR (Pos.to_nat q)).
    replace a with (b + 2 * INR (Pos.to_nat q) * PI) by (unfold b; lra).
    rewrite cos_period, sin_period. split; reflexivity.
Qed.

Lemma Cexp_i_lobe (a : R) : Cexp_i (lobe a) = Cexp_i a.
Proof.
  unfold Cexp_i, lobe.
  destruct (cos_sin_period_Z a (up ((- a - PI) / (2 * PI)))) as [Hc Hs].
  rewrite Hc, Hs. reflexivity.
Qed.

(** The canonical range of [lobe]. *)
Lemma lobe_range (a : R) : - PI < lobe a <= PI.
Proof.
  unfold lobe. set (r := (- a - PI) / (2 * PI)).
  destruct (archimed r) as [H1 H2].
  assert (HPI : 0 < 2 * PI) by (pose proof PI_RGT_0; lra).
  assert (Hr : r * (2 * PI) = - a - PI).
  { unfold r. field. lra. }
  split; nra.
Qed.

End PhaseFacts.

(** ** In-place multiplication of matched rows *)

Lemma imul_fold_miss xa k p fac (l : list nat) : forall s acc f' k' p' t,
    ~ In f' l \/ k' <> k \/ p' <> p ->
    fold_left (imul_step xa k p fac) (combine (seq s (length l)) l) acc f' k' p' t
    = acc f' k' p' t.
Proof.
  induction l as [|a l IH]; intros s acc f' k' p' t H.
  - reflexivity.
  - cbn [length seq combine fold_left]. rewrite IH.
    + unfold imul_step. cbn [fst snd].
      destruct ((f' =? a) && (k' =? k) && (p' =? p)) eqn:E; [|reflexivity].
      apply andb_true_iff in E. destruct E as [E Ep].
      apply andb_true_iff in E. destruct E as [Ef Ek].
      apply Nat.eqb_eq in Ef. apply Nat.eqb_eq in Ek. apply Nat.eqb_eq in Ep.
      exfalso. destruct H as [H|[H|H]]; [apply H; left; auto | auto | auto].
    + destruct H as [H|H]; [left; intros Hin; apply H; right; assumption
                           | right; assumption].
Qed.

Lemma imul_fold_hit xa k p fac (l : list nat) : forall s acc m d t,
    NoDup l -> m < length l ->
    fold_left (imul_step xa k p fac) (combine (seq s (length l)) l) acc
      (nth m l d) k p t
    = (xa (nth m l d) k p t * fac (s + m)%nat)%C.
Proof.
  induction l as [|a l IH]; intros s acc m d t Hnd Hm.
  - simpl in Hm. lia.
  - cbn [length seq combine fold_left].
    inversion Hnd as [|a' l' Hnotin Hnd']. subst.
    destruct m as [|m].
    + cbn [nth]. rewrite imul_fold_miss by (left; assumption).
      unfold imul_step. cbn [fst snd]. rewrite !Nat.eqb_refl. cbn [andb].
      rewrite Nat.add_0_r. reflexivity.
    + cbn [nth]. rewrite IH by (simpl in Hm; auto; lia).
      replace (S s + m) with (s + S m) by lia. reflexivity.
Qed.

Lemma imul_rows_miss xa fidx1 k p fac f' k' p' t :
  ~ In f' fidx1 \/ k' <> k \/ p' <> p ->
  imul_rows xa fidx1 k p fac f' k' p' t = xa f' k' p' t.
Proof. intros H. unfold imul_rows, enumerate. apply imul_fold_miss. exact H. Qed.

Lemma imul_rows_hit xa fidx1 k p fac m d t :
  NoDup fidx1 -> m < length fidx1 ->
  imul_rows xa fidx1 k p fac (nth m fidx1 d) k p t
  = (xa (nth m fidx1 d) k p t * fac m)%C.
Proof.
  intros Hnd Hm. unfold imul_rows, enumerate.
  rewrite imul_fold_hit by assumption. reflexivity.
Qed.

(** Baseline [k0] of the result depends on baseline [k0] of the operand
    only. *)
Lemma imul_rows_ext xa xa' fidx1 k p fac k0 :
  (forall f q t, xa f k0 q t = xa' f k0 q t) ->
  forall f q t,
    imul_rows xa fidx1 k p fac f k0 q t = imul_rows xa' fidx1 k p fac f k0 q t.
Proof.
  intros Hx. unfold imul_rows.
  assert (Hgen : forall l (acc acc' : XArr),
             (forall f q t, acc f k0 q t = acc' f k0 q t) ->
             forall f q t,
               fold_left (imul_step xa k p fac) l acc f k0 q t
               = fold_left (imul_step xa' k p fac) l acc' f k0 q t).
  { induction l as [|mf l IH]; intros acc acc' Hacc f q t.
    - apply Hacc.
    - cbn [fold_left]. apply IH. intros f1 q1 t1. unfold imul_step.
      destruct ((f1 =? snd mf) && (k0 =? k) && (q1 =? p)) eqn:E.
      + apply andb_true_iff in E. destruct E as [E _].
        apply andb_true_iff in E. destruct E as [_ Ek].
        apply Nat.eqb_eq in Ek. subst k0. rewrite Hx. reflexivity.
      + apply Hacc. }
  apply Hgen. exact Hx.
Qed.

(** ** The delay-phase loop *)

Lemma delay_step_other dph fidx1 fidx2 acc k b f k' p t :
  k' <> k -> delay_step dph fidx1 fidx2 acc (k, b) f k' p t = acc f k' p t.
Proof.
  intros Hne. destruct b as [i j]. unfold delay_step.
  destruct (corrected_bl i j); [|reflexivity].
  rewrite !imul_rows_miss by (right; left; assumption). reflexivity.
Qed.

Lemma delay_step_self dph fidx1 fidx2 acc acc' k b :
  (forall f p t, acc f k p t = acc' f k p t) ->
  forall f p t, delay_step dph fidx1 fidx2 acc (k, b) f k p t
                = delay_step dph fidx1 fidx2 acc' (k, b) f k p t.
Proof.
  intros H f p t. destruct b as [i j]. unfold delay_step.
  destruct (corrected_bl i j); [|apply H].
  apply imul_rows_ext. apply imul_rows_ext. apply imul_rows_ext. exact H.
Qed.

Lemma corrected_bl_true (i j : nat) :
  corrected_bl i j = true <-> i < 14 /\ j < 14 /\ i <> j.
Proof.
  unfold corrected_bl. rewrite !andb_true_iff, negb_true_iff.
  rewrite !Nat.ltb_lt, Nat.eqb_neq. tauto.
Qed.

Lemma corrected_bl_false (i j : nat) :
  corrected_bl i j = false <-> i = j \/ 14 <= i \/ 14 <= j.
Proof.
  destruct (corrected_bl i j) eqn:E.
  - apply corrected_bl_true in E. split; [discriminate | lia].
  - split; [intros _ | reflexivity].
    destruct (Nat.eq_dec i j); [left; assumption|].
    destruct (Nat.lt_ge_cases i 14); [|right; left; assumption].
    destruct (Nat.lt_ge_cases j 14); [|right; right; assumption].
    assert (corrected_bl i j = true) by (apply corrected_bl_true; auto).
    congruence.
Qed.

Lemma delay_phase_fold dph fidx1 fidx2 xa f k p t i j :
  nth_error get_bl_order k = Some (i, j) ->
  delay_phase dph fidx1 fidx2 xa f k p t
  = delay_step dph fidx1 fidx2 xa (k, (i, j)) f k p t.
Proof.
  intros Hk. unfold delay_phase.
  apply (fold_bl_at _ _ (delay_step dph fidx1 fidx2)
           (delay_step_other dph fidx1 fidx2)
           (delay_step_self dph fidx1 fidx2) get_bl_order xa f k p t (i, j) Hk).
Qed.

Lemma delay_phase_beyond dph fidx1 fidx2 xa f k p t :
  nth_error get_bl_order k = None ->
  delay_phase dph fidx1 fidx2 xa f k p t = xa f k p t.
Proof.
  intros Hk. unfold delay_phase.
  apply (fold_bl_beyond _ _ (delay_step dph fidx1 fidx2)
           (delay_step_other dph fidx1 fidx2)
           (delay_step_self dph fidx1 fidx2)).
  apply nth_error_None. exact Hk.
Qed.

(** The delay-phase loop at a matched frequency of a corrected baseline. *)
Lemma delay_phase_matched dph fidx1 fidx2 xa k i j m t :
  nth_error get_bl_order k = Some (i, j) -> corrected_bl i j = true ->
  NoDup fidx1 -> m < length fidx1 ->
  let f := nth m fidx1 0 in
  let c := nth m fidx2 0 in
  let x1 := delay_phase dph fidx1 fidx2 xa in
  x1 f k 0 t = xa f k 0 t /\
  x1 f k 1 t = (xa f k 1 t * Cexp_i (lobe (dph i c - dph j c)))%C /\
  x1 f k 2 t = (xa f k 2 t * Cexp_i (- dph j c + PI / 2))%C /\
  x1 f k 3 t = (xa f k 3 t * Cexp_i (dph i c - PI / 2))%C /\
  forall p, 4 <= p -> x1 f k p t = xa f k p t.
Proof.
  intros Hk Hc Hnd Hm f c x1. unfold x1.
  assert (Hfold : forall p,
            delay_phase dph fidx1 fidx2 xa f k p t
            = delay_step dph fidx1 fidx2 xa (k, (i, j)) f k p t)
    by (intros p; apply delay_phase_fold; exact Hk).
  rewrite !Hfold. unfold delay_step. rewrite Hc.
  split; [|split; [|split; [|split]]].
  - rewrite !imul_rows_miss by (right; right; discriminate). reflexivity.
  - rewrite !imul_rows_miss by (right; right; discriminate).
    unfold f. rewrite imul_rows_hit by assumption. reflexivity.
  - rewrite imul_rows_miss by (right; right; discriminate).
    unfold f. rewrite imul_rows_hit by assumption.
    rewrite imul_rows_miss by (right; right; discriminate). reflexivity.
  - unfold f. rewrite imul_rows_hit by assumption.
    rewrite !imul_rows_miss by (right; right; discriminate). reflexivity.
  - intros p Hp. rewrite Hfold. unfold delay_step. rewrite Hc.
    rewrite !imul_rows_miss by (right; right; lia). reflexivity.
Qed.

(** ... and everywhere else. *)
Lemma delay_phase_untouched dph fidx1 fidx2 xa f k p t :
  (forall i j, nth_error get_bl_order k = Some (i, j) ->
               corrected_bl i j = false \/ ~ In f fidx1 \/ p = 0 \/ 4 <= p) ->
  delay_phase dph fidx1 fidx2 xa f k p t = xa f k p t.
Proof.
  intros H.
  destruct (nth_error get_bl_order k) as [[i j]|] eqn:Hk.
  - rewrite (delay_phase_fold dph fidx1 fidx2 xa f k p t i j Hk).
    unfold delay_step.
    destruct (corrected_bl i j) eqn:Hc; [|reflexivity].
    destruct (H i j eq_refl) as [H'|[H'|[H'|H']]].
    + congruence.
    + rewrite !imul_rows_miss by (left; assumption). reflexivity.
    + subst p. rewrite !imul_rows_miss by (right; right; discriminate).
      reflexivity.
    + rewrite !imul_rows_miss by (right; right; lia). reflexivity.
  - apply delay_phase_beyond. exact Hk.
Qed.

(** ** Frequency matching *)

Lemma find_index_Some (k : Z) (l : list Z) : forall pos j,
    find_index k l pos = Some j ->
    pos <= j /\ j - pos < length l /\ nth (j - pos) l 0%Z = k.
Proof.
  induction l as [|y l IH]; simpl; intros pos j H.
  - discriminate.
  - destruct (Z.eqb k y) eqn:E.
    + inversion H. subst j. apply Z.eqb_eq in E. rewrite Nat.sub_diag.
      repeat split; [lia | lia | auto].
    + destruct (IH _ _ H) as [H1 [H2 H3]].
      replace (j - pos) with (S (j - S pos)) by lia.
      repeat split; [lia | lia | exact H3].
Qed.

Lemma find_index_None (k : Z) (l : list Z) : forall pos,
    find_index k l pos = None -> ~ In k l.
Proof.
  induction l as [|y l IH]; simpl; intros pos H.
  - tauto.
  - destruct (Z.eqb k y) eqn:E; [discriminate|].
    apply Z.eqb_neq in E. intros [Hy|Hin]; [congruence|].
    exact (IH _ H Hin).
Qed.

Lemma hits_from (k2 : list Z) (l : list Q) : forall s i j,
    In (i, j) (flat_map (common_hit k2) (combine (seq s (length l)) l)) <->
    s <= i /\ i - s < length l /\
    find_index (freq_key (nth (i - s) l 0%Q)) k2 0 = Some j.
Proof.
  induction l as [|q l IH]; intros s i j.
  - simpl. split; [tauto | lia].
  - cbn [length seq combine flat_map]. rewrite in_app_iff, IH. split.
    + intros [H|[H1 [H2 H3]]].
      * unfold common_hit in H. cbn [fst snd] in H.
        destruct (find_index (freq_key q) k2 0) as [j'|] eqn:E; [|contradiction].
        destruct H as [H|[]]. inversion H. subst.
        rewrite Nat.sub_diag. simpl. repeat split; [lia | lia | exact E].
      * replace (i - s) with (S (i - S s)) by lia. simpl.
        repeat split; [lia | lia | exact H3].
    + intros [H1 [H2 H3]]. destruct (Nat.eq_dec i s) as [->|Hne].
      * left. rewrite Nat.sub_diag in H3. simpl in H3.
        unfold common_hit. cbn [fst snd]. rewrite H3. left. reflexivity.
      * right. replace (i - s) with (S (i - S s)) in H2, H3 by lia.
        simpl in H2, H3. repeat split; [lia | lia | exact H3].
Qed.

Lemma hits_NoDup (k2 : list Z) (l : list Q) : forall s,
    NoDup (map fst (flat_map (common_hit k2) (combine (seq s (length l)) l))).
Proof.
  induction l as [|q l IH]; intros s.
  - constructor.
  - cbn [length seq combine flat_map]. rewrite map_app.
    unfold common_hit at 1. cbn [fst snd].
    destruct (find_index (freq_key q) k2 0) as [j|].
    + cbn [map app fst]. constructor; [|apply IH].
      intros Hin. apply in_map_iff in Hin. destruct Hin as [[i j'] [Hi Hin]].
      simpl in Hi. subst i. apply hits_from in Hin. lia.
    + apply IH.
Qed.

Lemma common_hits_In (a1 a2 : list Q) (i j : nat) :
  In (i, j) (common_hits a1 a2) <->
  i < length a1 /\
  find_index (freq_key (nth i a1 0%Q)) (map freq_key a2) 0 = Some j.
Proof.
  unfold common_hits, enumerate. rewrite hits_from, Nat.sub_0_r.
  split; [intros [_ H]; exact H | intros H; split; [lia | exact H]].
Qed.

Lemma common_val_idx_NoDup (a1 a2 : list Q) :
  NoDup (fst (common_val_idx a1 a2)).
Proof. unfold common_val_idx, common_hits, enumerate. apply hits_NoDup. Qed.

Lemma common_val_idx_length (a1 a2 : list Q) :
  length (fst (common_val_idx a1 a2)) = length (snd (common_val_idx a1 a2)).
Proof. unfold common_val_idx. simpl. rewrite !length_map. reflexivity. Qed.

(** The [m]-th match pairs a dataset frequency with a calibration frequency
    of the same value at 4 decimal digits. *)
Lemma common_val_idx_match (a1 a2 : list Q) (m : nat) :
  m < length (fst (common_val_idx a1 a2)) ->
  let f := nth m (fst (common_val_idx a1 a2)) 0 in
  let c := nth m (snd (common_val_idx a1 a2)) 0 in
  f < length a1 /\ c < length a2 /\
  freq_key (nth f a1 0%Q) = freq_key (nth c a2 0%Q).
Proof.
  unfold common_val_idx. cbn [fst snd]. rewrite length_map. intros Hm.
  assert (Hin : In (nth m (common_hits a1 a2) (0, 0)) (common_hits a1 a2))
    by (apply nth_In; exact Hm).
  assert (E1 : nth m (map fst (common_hits a1 a2)) 0
               = fst (nth m (common_hits a1 a2) (0, 0)))
    by exact (map_nth fst (common_hits a1 a2) (0, 0) m).
  assert (E2 : nth m (map snd (common_hits a1 a2)) 0
               = snd (nth m (common_hits a1 a2) (0, 0)))
    by exact (map_nth snd (common_hits a1 a2) (0, 0) m).
  rewrite E1, E2. clear E1 E2.
  destruct (nth m (common_hits a1 a2) (0, 0)) as [i j]. cbn [fst snd].
  apply common_hits_In in Hin. destruct Hin as [Hi Hfind].
  apply find_index_Some in Hfind. destruct Hfind as [_ [Hj Hnth]].
  rewrite Nat.sub_0_r in Hj, Hnth. rewrite length_map in Hj.
  split; [exact Hi|]. split; [exact Hj|].
  rewrite <- Hnth.
  rewrite (nth_indep (map freq_key a2) 0%Z (freq_key 0%Q))
    by (rewrite length_map; exact Hj).
  rewrite map_nth. reflexivity.
Qed.

(** A dataset frequency is recorded as missing exactly when no calibration
    frequency has its value at 4 decimal digits. *)
Lemma missing_iff (a1 a2 : list Q) (f : nat) :
  In f (setdiff1d_arange (length a1) (fst (common_val_idx a1 a2))) <->
  f < length a1 /\ ~ In (freq_key (nth f a1 0%Q)) (map freq_key a2).
Proof.
  unfold setdiff1d_arange. rewrite filter_In, in_seq, negb_true_iff.
  unfold common_val_idx. cbn [fst].
  split.
  - intros [Hf Hex]. split; [lia|]. intros Hin.
    destruct (find_index (freq_key (nth f a1 0%Q)) (map freq_key a2) 0) as [j|] eqn:E.
    + assert (Hh : In (f, j) (common_hits a1 a2))
        by (apply common_hits_In; split; [lia | exact E]).
      assert (Hex' : existsb (Nat.eqb f) (map fst (common_hits a1 a2)) = true).
      { apply existsb_exists. exists f. split; [|apply Nat.eqb_refl].
        apply in_map_iff. exists (f, j). auto. }
      congruence.
    + exact (find_index_None _ _ _ E Hin).
  - intros [Hf Hnot]. split; [lia|].
    destruct (existsb (Nat.eqb f) (map fst (common_hits a1 a2))) eqn:E;
      [|reflexivity].
    apply existsb_exists in E. destruct E as [f' [Hin Heq]].
    apply Nat.eqb_eq in Heq. subst f'.
    apply in_map_iff in Hin. destruct Hin as [[i j] [Hi Hin]].
    simpl in Hi. subst i. apply common_hits_In in Hin. destruct Hin as [_ Hfind].
    apply find_index_Some in Hfind. destruct Hfind as [_ [Hj Hnth]].
    exfalso. apply Hnot. rewrite <- Hnth. apply nth_In. exact Hj.
Qed.

(** C8: the delay-phase correction of unrot.  For a baseline (i, j) of the
    baseline order with i < 14, j < 14 and i <> j, and for every matched
    frequency (position f in the dataset, c in the calibration record, the
    same value at 4 decimal digits), at every time: product 1 is multiplied
    by exp(i*a1), product 2 by exp(i*a2) and product 3 by exp(i*a3), with
    a1 = lobe(dph[i] - dph[j]), a2 = -dph[j] + pi/2, a3 = dph[i] - pi/2 and
    lobe the reduction to (-pi, pi]; product 0 is left as it is; baselines
    with i = j or with an antenna index of 14 or more are left as they are
    in every product. *)
Theorem unrot_delay_phase (data : Dataset) (cal : XYCal) :
  let fidx1 := fst (common_val_idx (fghz data) (fghz_good cal)) in
  let fidx2 := snd (common_val_idx (fghz data) (fghz_good cal)) in
  let dph := dph_good cal in
  let x1 := delay_phase dph fidx1 fidx2 (x data) in
  forall k i j, nth_error get_bl_order k = Some (i, j) ->
    (i < 14 -> j < 14 -> i <> j ->
     forall m t, m < length fidx1 ->
       let f := nth m fidx1 0 in
       let c := nth m fidx2 0 in
       freq_key (nth f (fghz data) 0%Q) = freq_key (nth c (fghz_good cal) 0%Q) /\
       (- PI < lobe (dph i c - dph j c) <= PI)%R /\
       x1 f k 0 t = x data f k 0 t /\
       x1 f k 1 t = (x data f k 1 t * Cexp_i (lobe (dph i c - dph j c)))%C /\
       x1 f k 2 t = (x data f k 2 t * Cexp_i (- dph j c + PI / 2))%C /\
       x1 f k 3 t = (x data f k 3 t * Cexp_i (dph i c - PI / 2))%C) /\
    (i = j \/ 14 <= i \/ 14 <= j ->
     forall f p t, x1 f k p t = x data f k p t).
Proof.
  intros fidx1 fidx2 dph x1 k i j Hk. split.
  - intros Hi Hj Hij m t Hm f c.
    assert (Hc : corrected_bl i j = true) by (apply corrected_bl_true; auto).
    destruct (common_val_idx_match (fghz data) (fghz_good cal) m Hm)
      as [_ [_ Hkey]].
    destruct (delay_phase_matched dph fidx1 fidx2 (x data) k i j m t Hk Hc
                (common_val_idx_NoDup _ _) Hm) as [H0 [H1 [H2 [H3 _]]]].
    split; [exact Hkey|]. split; [apply lobe_range|].
    repeat split; assumption.
  - intros Hex f p t. apply delay_phase_untouched.
    intros i' j' Hk'. rewrite Hk in Hk'. inversion Hk'. subst i' j'.
    left. apply corrected_bl_false. exact Hex.
Qed.

(** ** The rotation loops *)

Lemma rot_step_other chi dx n acc k b f k' p t :
  k' <> k -> rot_step chi dx n acc (k, b) f k' p t = acc f k' p t.
Proof.
  intros Hne. destruct b as [i j]. unfold rot_step.
  destruct (corrected_bl i j); [|reflexivity].
  apply Nat.eqb_neq in Hne. rewrite Hne. reflexivity.
Qed.

Lemma rot_step_self chi dx n acc acc' k b :
  (forall f p t, acc f k p t = acc' f k p t) ->
  forall f p t, rot_step chi dx n acc (k, b) f k p t
                = rot_step chi dx n acc' (k, b) f k p t.
Proof.
  intros H f p t. destruct b as [i j]. unfold rot_step.
  destruct (corrected_bl i j); [|apply H].
  destruct ((k =? k) && (t =? n)); [|apply H].
  destruct p as [|[|[|[|p]]]]; try reflexivity. apply H.
Qed.

Lemma rot_pass chi dx n (cx : XArr) f k p t :
  fold_left (rot_step chi dx n) (enumerate get_bl_order) cx f k p t =
  match nth_error get_bl_order k with
  | Some (i, j) => rot_step chi dx n cx (k, (i, j)) f k p t
  | None => cx f k p t
  end.
Proof.
  destruct (nth_error get_bl_order k) as [[i j]|] eqn:Hk.
  - apply (fold_bl_at _ _ (rot_step chi dx n) (rot_step_other chi dx n)
             (rot_step_self chi dx n) get_bl_order cx f k p t (i, j) Hk).
  - apply (fold_bl_beyond _ _ (rot_step chi dx n) (rot_step_other chi dx n)
             (rot_step_self chi dx n)).
    apply nth_error_None. exact Hk.
Qed.

(** The rotation loops in closed form. *)
Lemma feed_rotation_at chi dx : forall nt f k p t,
    feed_rotation chi nt dx f k p t =
    match nth_error get_bl_order k with
    | Some (i, j) =>
        if corrected_bl i j && (t <? nt) then rot_val chi dx i j f k p t
        else dx f k p t
    | None => dx f k p t
    end.
Proof.
  induction nt as [|nt IH]; intros f k p t.
  - unfold feed_rotation. cbn [seq fold_left].
    destruct (nth_error get_bl_order k) as [[i j]|]; [|reflexivity].
    rewrite andb_false_r. reflexivity.
  - unfold feed_rotation. rewrite seq_S, fold_left_app. cbn [fold_left Nat.add].
    fold (feed_rotation chi nt dx). rewrite rot_pass.
    destruct (nth_error get_bl_order k) as [[i j]|] eqn:Hk.
    + unfold rot_step. destruct (corrected_bl i j) eqn:Hc.
      * rewrite Nat.eqb_refl. cbn [andb].
        destruct (t =? nt) eqn:Et.
        -- apply Nat.eqb_eq in Et. subst t.
           assert (Hlt : (nt <? S nt) = true) by (apply Nat.ltb_lt; lia).
           rewrite Hlt. unfold rot_val.
           destruct p as [|[|[|[|p]]]]; try reflexivity.
           rewrite IH, Hk, Hc, Nat.ltb_irrefl. reflexivity.
        -- rewrite IH, Hk, Hc. cbn [andb]. apply Nat.eqb_neq in Et.
           destruct (t <? nt) eqn:E1; destruct (t <? S nt) eqn:E2; try reflexivity.
           ++ apply Nat.ltb_lt in E1. apply Nat.ltb_ge in E2. lia.
           ++ apply Nat.ltb_ge in E1. apply Nat.ltb_lt in E2. lia.
      * rewrite IH, Hk, Hc. reflexivity.
    + rewrite IH, Hk. reflexivity.
Qed.

Section RotationAlgebra.

Local Open Scope R_scope.

(** Rotating by [d] and then by [-d] gives back each of the four
    products. *)
Lemma rot_roundtrip (d : R) (x0 x1 x2 x3 : C) :
  let y0 := (x0 *r cos d + x3 *r sin d)%C in
  let y1 := (x1 *r cos d - x2 *r sin d)%C in
  let y2 := (x2 *r cos d + x1 *r sin d)%C in
  let y3 := (x3 *r cos d - x0 *r sin d)%C in
  (y0 *r cos (- d) + y3 *r sin (- d))%C = x0 /\
  (y1 *r cos (- d) - y2 *r sin (- d))%C = x1 /\
  (y2 *r cos (- d) + y1 *r sin (- d))%C = x2 /\
  (y3 *r cos (- d) - y0 *r sin (- d))%C = x3.
Proof.
  cbv zeta. rewrite cos_neg, sin_neg.
  pose proof (sin2_cos2 d) as H. unfold Rsqr in H.
  set (c := cos d) in *. set (s := sin d) in *.
  destruct x0 as [a0 b0], x1 as [a1 b1], x2 as [a2 b2], x3 as [a3 b3].
  repeat split; apply C_eq; simpl;
    match goal with
    | |- _ = ?r => transitivity (r * (s * s + c * c)); [ring | rewrite H; ring]
    end.
Qed.

End RotationAlgebra.

(** C9: the feed-rotation step.  On a corrected baseline and a time sample
    of the dataset it is the linear map x'0 = x0 cos + x3 sin, x'2 = x2 cos
    + x1 sin, x'3 = x3 cos - x0 sin, x'1 = x1 cos - x2 sin of the four
    products, with dchi = chi[n,i] - chi[n,j]; running the step again with
    every dchi negated gives back the array the first step started from, at
    every index and for every input. *)
Theorem feed_rotation_invertible (chi chi' : nat -> nat -> R) (nt : nat) (dx : XArr) :
  (forall n i j, chi' n i - chi' n j = - (chi n i - chi n j))%R ->
  forall f k p t,
    (forall i j,
        nth_error get_bl_order k = Some (i, j) -> corrected_bl i j = true ->
        t < nt ->
        let d := (chi t i - chi t j)%R in
        let y := feed_rotation chi nt dx in
        y f k 0 t = (dx f k 0 t *r cos d + dx f k 3 t *r sin d)%C /\
        y f k 2 t = (dx f k 2 t *r cos d + dx f k 1 t *r sin d)%C /\
        y f k 3 t = (dx f k 3 t *r cos d - dx f k 0 t *r sin d)%C /\
        y f k 1 t = (dx f k 1 t *r cos d - dx f k 2 t *r sin d)%C) /\
    feed_rotation chi' nt (feed_rotation chi nt dx) f k p t = dx f k p t.
Proof.
  intros Hneg f k p t.
  assert (Hrot : forall i j q,
             nth_error get_bl_order k = Some (i, j) -> corrected_bl i j = true ->
             t < nt ->
             feed_rotation chi nt dx f k q t = rot_val chi dx i j f k q t).
  { intros i j q Hk Hc Ht. rewrite feed_rotation_at, Hk, Hc.
    apply Nat.ltb_lt in Ht. rewrite Ht. reflexivity. }
  split.
  - intros i j Hk Hc Ht d y. unfold y.
    pose proof (fun q => Hrot i j q Hk Hc Ht) as Hq.
    rewrite !Hq. repeat split; reflexivity.
  - rewrite feed_rotation_at.
    destruct (nth_error get_bl_order k) as [[i j]|] eqn:Hk.
    + destruct (corrected_bl i j) eqn:Hc; cbn [andb].
      * destruct (t <? nt) eqn:Ht.
        -- apply Nat.ltb_lt in Ht. unfold rot_val at 1. rewrite Hneg.
           destruct (rot_roundtrip (chi t i - chi t j)
                       (dx f k 0 t) (dx f k 1 t) (dx f k 2 t) (dx f k 3 t))
             as [R0 [R1 [R2 R3]]].
           pose proof (fun q => Hrot i j q eq_refl Hc Ht) as Hq.
           destruct p as [|[|[|[|p]]]];
             rewrite ?Hq; unfold rot_val;
             [exact R0 | exact R1 | exact R2 | exact R3 | reflexivity].
        -- rewrite feed_rotation_at, Hk, Hc, Ht. reflexivity.
      * rewrite feed_rotation_at, Hk, Hc. reflexivity.
    + rewrite feed_rotation_at, Hk. reflexivity.
Qed.

Lemma feed_rotation_invertible_witness :
  (forall n i j,
      (- ParallacticAngle Examples.azel_eq n i
       - - ParallacticAngle Examples.azel_eq n j
       = - (ParallacticAngle Examples.azel_eq n i
            - ParallacticAngle Examples.azel_eq n j))%R) /\
  feed_rotation (fun n a => (- ParallacticAngle Examples.azel_eq n a)%R) 2
    (feed_rotation (ParallacticAngle Examples.azel_eq) 2 Examples.ones_x) 0 1 0 0
  = Examples.ones_x 0 1 0 0.
Proof.
  assert (H : forall n i j,
             (- ParallacticAngle Examples.azel_eq n i
              - - ParallacticAngle Examples.azel_eq n j
              = - (ParallacticAngle Examples.azel_eq n i
                   - ParallacticAngle Examples.azel_eq n j))%R)
    by (intros; lra).
  split; [exact H|].
  exact (proj2 (feed_rotation_invertible (ParallacticAngle Examples.azel_eq)
                  (fun n a => (- ParallacticAngle Examples.azel_eq n a)%R) 2
                  Examples.ones_x H 0 1 0 0)).
Defined.

(** With no differential angle the rotation loops change nothing. *)
Lemma feed_rotation_zero (chi : nat -> nat -> R) (nt : nat) (dx : XArr) :
  (forall k i j n,
      nth_error get_bl_order k = Some (i, j) -> corrected_bl i j = true ->
      n < nt -> (chi n i - chi n j = 0)%R) ->
  forall f k p t, feed_rotation chi nt dx f k p t = dx f k p t.
Proof.
  intros Hz f k p t. rewrite feed_rotation_at.
  destruct (nth_error get_bl_order k) as [[i j]|] eqn:Hk; [|reflexivity].
  destruct (corrected_bl i j) eqn:Hc; cbn [andb]; [|reflexivity].
  destruct (t <? nt) eqn:Ht; [|reflexivity].
  apply Nat.ltb_lt in Ht. unfold rot_val. rewrite (Hz k i j t Hk Hc Ht).
  rewrite cos_0, sin_0.
  destruct p as [|[|[|[|p]]]]; try reflexivity;
    apply C_eq; simpl; lra.
Qed.

(** C5, as the code has it: when dchi is 0 on every corrected baseline and
    time sample and the delay phases of the two antennas of every corrected
    baseline are equal, the x array of the dataset unrot builds equals the
    input x in products 0 and 1 everywhere, and in products 2 and 3
    everywhere except at the matched frequencies of the corrected
    baselines, where product 2 is the input times exp(i*(-dph[j] + pi/2))
    and product 3 the input times exp(i*(dph[i] - pi/2)). *)
Theorem unrot_cdata_zero_angles (data : Dataset) (azeldict : AzelDict) (cal : XYCal) :
  let chi := correct_chi (ParallacticAngle azeldict) in
  let fidx1 := fst (common_val_idx (fghz data) (fghz_good cal)) in
  let fidx2 := snd (common_val_idx (fghz data) (fghz_good cal)) in
  let dph := dph_good cal in
  (forall k i j n,
      nth_error get_bl_order k = Some (i, j) -> corrected_bl i j = true ->
      n < length (time data) -> (chi n i - chi n j = 0)%R) ->
  (forall k i j m,
      nth_error get_bl_order k = Some (i, j) -> corrected_bl i j = true ->
      m < length fidx2 ->
      (dph i (nth m fidx2 0%nat) - dph j (nth m fidx2 0%nat) = 0)%R) ->
  let xc := x (unrot_cdata data azeldict cal) in
  (forall f k t,
      xc f k 0 t = x data f k 0 t /\ xc f k 1 t = x data f k 1 t) /\
  (forall k i j m t,
      nth_error get_bl_order k = Some (i, j) -> corrected_bl i j = true ->
      m < length fidx1 ->
      let f := nth m fidx1 0 in
      let c := nth m fidx2 0 in
      xc f k 2 t = (x data f k 2 t * Cexp_i (- dph j c + PI / 2))%C /\
      xc f k 3 t = (x data f k 3 t * Cexp_i (dph i c - PI / 2))%C) /\
  (forall f k p t,
      (forall i j, nth_error get_bl_order k = Some (i, j) ->
                   corrected_bl i j = false \/ ~ In f fidx1) ->
      xc f k p t = x data f k p t).
Proof.
  intros chi fidx1 fidx2 dph Hchi Hdph xc.
  assert (Hxc : forall f k p t,
             xc f k p t = delay_phase dph fidx1 fidx2 (x data) f k p t).
  { intros f k p t. unfold xc, unrot_cdata. cbn [x set_x].
    apply feed_rotation_zero. exact Hchi. }
  assert (Hnd : NoDup fidx1) by apply common_val_idx_NoDup.
  assert (Hlen : length fidx1 = length fidx2) by apply common_val_idx_length.
  split; [|split].
  - intros f k t. rewrite !Hxc. split.
    + apply delay_phase_untouched. intros i j _. right. right. left. reflexivity.
    + destruct (nth_error get_bl_order k) as [[i j]|] eqn:Hk.
      * destruct (corrected_bl i j) eqn:Hc.
        -- destruct (in_dec Nat.eq_dec f fidx1) as [Hin|Hnin].
           ++ destruct (In_nth _ _ 0 Hin) as [m [Hm Hf]]. subst f.
              destruct (delay_phase_matched dph fidx1 fidx2 (x data) k i j m t
                          Hk Hc Hnd Hm) as [_ [H1 _]].
              rewrite H1, Cexp_i_lobe.
              rewrite (Hdph k i j m Hk Hc) by (rewrite <- Hlen; exact Hm).
              rewrite Cexp_i_0. apply Cmul_1_r.
           ++ apply delay_phase_untouched. intros i' j' _. right. left. exact Hnin.
        -- apply delay_phase_untouched. intros i' j' Hk'.
           rewrite Hk in Hk'. injection Hk' as <- <-. left. exact Hc.
      * apply delay_phase_beyond. exact Hk.
  - intros k i j m t Hk Hc Hm f c. rewrite !Hxc.
    destruct (delay_phase_matched dph fidx1 fidx2 (x data) k i j m t
                Hk Hc Hnd Hm) as [_ [_ [H2 [H3 _]]]].
    split; assumption.
  - intros f k p t H. rewrite Hxc. apply delay_phase_untouched.
    intros i j Hk. destruct (H i j Hk) as [H'|H']; [left | right; left]; exact H'.
Qed.

(** ** unrot as a whole *)

Section UnrotFacts.

Variable get_sql_info : R * R -> AzelDict.
Variable read_xycal : R -> XYCal.

(** On the inputs of [unrot_input_ok] the call gets as far as line 216,
    where the assignment raises; the caller is left with the dataset whose
    x went through the delay-phase loop and with the corrected geometry. *)
Lemma unrot_reaches_mask (st : Store) (t0 : R) (ts : list R) :
  time (caller_data st) = t0 :: ts ->
  let data := caller_data st in
  let azeldict := azel_used get_sql_info st (t0, last (t0 :: ts) t0) in
  let cal := read_xycal t0 in
  let fidx := common_val_idx (fghz data) (fghz_good cal) in
  unrot_input_ok data azeldict ->
  unrot get_sql_info read_xycal st =
  (Raise TypeError,
   mkStore (set_x data (delay_phase (dph_good cal) (fst fidx) (snd fidx) (x data)))
           (caller_azel (store_chi st (correct_chi (ParallacticAngle azeldict))))).
Proof.
  intros Ht data azeldict cal fidx [_ [Haz Hnt]].
  subst fidx cal azeldict data. unfold unrot. rewrite Ht in *.
  destruct (nonzero_idx_R
              (ActualAzimuth0
                 (azel_used get_sql_info st (t0, last (t0 :: ts) t0))))
    as [|g gs] eqn:Eg; [congruence|].
  apply Nat.ltb_ge in Hnt. rewrite Hnt. reflexivity.
Qed.

(** Whatever happens after line 173, the caller's geometry has been
    corrected and the time axis is the caller's. *)
Lemma unrot_store_after (st : Store) (t0 : R) (ts : list R) :
  time (caller_data st) = t0 :: ts ->
  let azeldict := azel_used get_sql_info st (t0, last (t0 :: ts) t0) in
  let st' := snd (unrot get_sql_info read_xycal st) in
  caller_azel st'
  = caller_azel (store_chi st (correct_chi (ParallacticAngle azeldict))) /\
  time (caller_data st') = t0 :: ts.
Proof.
  intros Ht azeldict st'. unfold st', unrot. rewrite Ht. fold azeldict.
  destruct (nonzero_idx_R (ActualAzimuth0 azeldict)) as [|g gs].
  - cbn [snd]. split; [reflexivity | exact Ht].
  - destruct (azel_nt azeldict <? length (t0 :: ts)); cbn [snd];
      split; reflexivity || exact Ht.
Qed.

(** unrot never returns a dataset. *)
Lemma unrot_never_returns (st : Store) :
  exists e, fst (unrot get_sql_info read_xycal st) = Raise e.
Proof.
  unfold unrot. destruct (time (caller_data st)) as [|t0 ts].
  - eexists. reflexivity.
  - destruct (nonzero_idx_R _); [eexists; reflexivity|].
    destruct (_ <? _); eexists; reflexivity.
Qed.

End UnrotFacts.

Lemma nonzero_idx_R_ones : nonzero_idx_R [1%R; 1%R] <> [].
Proof.
  unfold nonzero_idx_R, enumerate. cbn [length seq combine flat_map fst snd].
  destruct (Req_dec_T 1 0) as [H|_]; [exfalso; lra|]. discriminate.
Qed.

Lemma unit_data_input_ok (a : AzelDict) :
  ActualAzimuth0 a = [1%R; 1%R] -> azel_nt a = 2 ->
  unrot_input_ok Examples.unit_data a.
Proof.
  intros Haz Hnt. unfold unrot_input_ok. rewrite Haz, Hnt.
  split; [discriminate|]. split; [exact nonzero_idx_R_ones | simpl; lia].
Qed.

Lemma common_val_idx_cal0 :
  common_val_idx (fghz Examples.unit_data) (fghz_good Examples.cal0) = ([0], [0]).
Proof. reflexivity. Qed.

Lemma common_val_idx_cal_2ghz :
  common_val_idx (fghz Examples.unit_data) (fghz_good Examples.cal_2ghz) = ([], []).
Proof. reflexivity. Qed.

Lemma Cmul_C1_Ci : (C1 * Ci)%C = Ci.
Proof. apply C_eq; simpl; lra. Qed.

(** The delay-phase loop on unit visibilities with zero delay phases turns
    product 2 of baseline 1 = (0, 1) into i. *)
Lemma delay_phase_unit_data (t : nat) :
  delay_phase (dph_good Examples.cal0) [0] [0] Examples.ones_x 0 1 2 t = Ci.
Proof.
  assert (Hc : corrected_bl 0 1 = true) by reflexivity.
  assert (Hnd : NoDup [0]) by (constructor; [simpl; tauto | constructor]).
  assert (Hm : 0 < length [0]) by (simpl; lia).
  destruct (delay_phase_matched (dph_good Examples.cal0) [0] [0] Examples.ones_x
              1 0 1 0 t bl_order_1 Hc Hnd Hm) as [_ [_ [H2 _]]].
  cbn [nth] in H2. rewrite H2.
  unfold Examples.ones_x, dph_good, Examples.cal0. cbn [XYphase].
  replace (- 0 + PI / 2)%R with (PI / 2)%R by lra.
  rewrite Cexp_i_PI2. apply Cmul_C1_Ci.
Qed.

(** C1 fails on the code: after the call the caller's own x array holds the
    delay-phase corrected values.  With unit visibilities, zero parallactic
    angles and zero delay phases at the dataset's frequency, product 2 of
    baseline 1 = (0, 1) in the caller's dataset has become i. *)
Theorem unrot_mutates_caller_x :
  x (caller_data Examples.store0) 0 1 2 0 = C1 /\
  x (caller_data (snd (unrot Examples.sql0 Examples.read_cal0 Examples.store0)))
    0 1 2 0 = Ci /\
  fst (unrot Examples.sql0 Examples.read_cal0 Examples.store0) = Raise TypeError.
Proof.
  assert (Hok : unrot_input_ok Examples.unit_data Examples.azel0)
    by (apply unit_data_input_ok; reflexivity).
  rewrite (unrot_reaches_mask Examples.sql0 Examples.read_cal0 Examples.store0
             0%R [1%R] eq_refl Hok).
  cbn [fst snd caller_data x set_x Examples.store0].
  change (Examples.read_cal0 0%R) with Examples.cal0.
  rewrite common_val_idx_cal0. cbn [fst snd].
  split; [reflexivity|]. split; [|reflexivity].
  apply delay_phase_unit_data.
Qed.

(** C3 fails on the code: whenever unrot gets as far as the masking
    statement of line 216, with or without missing frequencies, the
    statement indexes the dataset dictionary with the numpy array of missing
    indices and raises TypeError; no dataset is returned and no frequency is
    marked. *)
Theorem unrot_mask_raises_TypeError
    (get_sql_info : R * R -> AzelDict) (read_xycal : R -> XYCal)
    (st : Store) (t0 : R) (ts : list R) :
  time (caller_data st) = t0 :: ts ->
  unrot_input_ok (caller_data st)
                 (azel_used get_sql_info st (t0, last (t0 :: ts) t0)) ->
  fst (unrot get_sql_info read_xycal st) = Raise TypeError.
Proof.
  intros Ht Hok.
  rewrite (unrot_reaches_mask get_sql_info read_xycal st t0 ts Ht Hok).
  reflexivity.
Qed.

(** A dataset at 1 GHz and a delay-phase record that only has 2 GHz:
    frequency 0 is missing, and the call raises. *)
Lemma unrot_mask_raises_TypeError_witness :
  setdiff1d_arange (length (fghz Examples.unit_data))
    (fst (common_val_idx (fghz Examples.unit_data)
            (fghz_good Examples.cal_2ghz))) = [0] /\
  fst (unrot Examples.sql0 Examples.read_cal_2ghz Examples.store0)
  = Raise TypeError.
Proof.
  split; [reflexivity|].
  apply (unrot_mask_raises_TypeError Examples.sql0 Examples.read_cal_2ghz
           Examples.store0 0%R [1%R] eq_refl).
  apply unit_data_input_ok; reflexivity.
Defined.

(** C10: when the caller passes an azeldict, its ParallacticAngle array is
    changed in place: after the call the columns 8, 9, 10 and 12 hold the
    caller's angle minus the caller's angle of antenna 13, column 13 holds
    0, the other columns are the caller's.  A second call on the same
    azeldict runs the same subtraction on the array the first call left
    (column 13 of which is then zero, so the second pass changes no value). *)
Theorem unrot_modifies_azeldict
    (get_sql_info : R * R -> AzelDict) (read_xycal : R -> XYCal)
    (data : Dataset) (azeldict : AzelDict) (t0 : R) (ts : list R) :
  time data = t0 :: ts ->
  let chi := ParallacticAngle azeldict in
  let st1 := snd (unrot get_sql_info read_xycal (mkStore data (Some azeldict))) in
  let st2 := snd (unrot get_sql_info read_xycal st1) in
  exists a1 a2,
    caller_azel st1 = Some a1 /\
    caller_azel st2 = Some a2 /\
    (forall n a,
        ParallacticAngle a1 n a =
        if equatorial a then (chi n a - chi n 13%nat)%R
        else if a =? 13 then 0%R else chi n a) /\
    (forall n a,
        ParallacticAngle a2 n a =
        if equatorial a
        then (ParallacticAngle a1 n a - ParallacticAngle a1 n 13%nat)%R
        else if a =? 13 then 0%R else ParallacticAngle a1 n a) /\
    (forall n a, ParallacticAngle a2 n a = ParallacticAngle a1 n a).
Proof.
  intros Ht chi st1 st2.
  destruct (unrot_store_after get_sql_info read_xycal
              (mkStore data (Some azeldict)) t0 ts Ht) as [Ha1 Ht1].
  fold st1 in Ha1, Ht1. cbn [store_chi caller_azel azel_used] in Ha1.
  destruct (unrot_store_after get_sql_info read_xycal st1 t0 ts Ht1) as [Ha2 _].
  fold st2 in Ha2. unfold store_chi, azel_used in Ha2. rewrite Ha1 in Ha2.
  eexists. eexists. split; [exact Ha1|]. split; [exact Ha2|].
  cbn [ParallacticAngle set_chi]. fold chi.
  split; [|split]; intros n a.
  - apply correct_chi_at.
  - apply correct_chi_at.
  - apply correct_chi_idempotent.
Qed.

(** Angle 7 on antenna 8 and 5 on antenna 13: after the call the caller
    holds 2 and 0. *)
Lemma unrot_modifies_azeldict_witness :
  time Examples.unit_data = [0%R; 1%R] /\
  exists a1,
    caller_azel (snd (unrot Examples.sql0 Examples.read_cal0 Examples.store_eq))
    = Some a1 /\
    ParallacticAngle a1 0 8 = (7 - 5)%R /\
    ParallacticAngle a1 0 13 = 0%R.
Proof.
  split; [reflexivity|].
  destruct (unrot_modifies_azeldict Examples.sql0 Examples.read_cal0
              Examples.unit_data Examples.azel_eq 0%R [1%R] eq_refl)
    as [a1 [a2 [H1 [_ [Hchi _]]]]].
  exists a1. split; [exact H1|]. split.
  - exact (Hchi 0 8).
  - exact (Hchi 0 13).
Defined.

(** Baseline 1 = (0, 1) at the one matched frequency: product 0 stays,
    product 2 is multiplied by exp(i*(-dph[1] + pi/2)). *)
Lemma unrot_delay_phase_witness :
  nth_error get_bl_order 1 = Some (0, 1) /\
  delay_phase (dph_good Examples.cal0)
    (fst (common_val_idx (fghz Examples.unit_data) (fghz_good Examples.cal0)))
    (snd (common_val_idx (fghz Examples.unit_data) (fghz_good Examples.cal0)))
    (x Examples.unit_data) 0 1 0 0
  = x Examples.unit_data 0 1 0 0 /\
  delay_phase (dph_good Examples.cal0)
    (fst (common_val_idx (fghz Examples.unit_data) (fghz_good Examples.cal0)))
    (snd (common_val_idx (fghz Examples.unit_data) (fghz_good Examples.cal0)))
    (x Examples.unit_data) 0 1 2 0
  = (x Examples.unit_data 0 1 2 0
     * Cexp_i (- dph_good Examples.cal0 1 0 + PI / 2))%C.
Proof.
  split; [reflexivity|].
  destruct (unrot_delay_phase Examples.unit_data Examples.cal0 1 0 1 bl_order_1)
    as [H _].
  assert (Hm : 0 < length (fst (common_val_idx (fghz Examples.unit_data)
                                  (fghz_good Examples.cal0))))
    by (simpl; lia).
  destruct (H ltac:(lia) ltac:(lia) ltac:(lia) 0 0 Hm) as [_ [_ [H0 [_ [H2 _]]]]].
  split; [exact H0 | exact H2].
Defined.

Lemma zero_chi_azel0 (n i j : nat) :
  (correct_chi (ParallacticAngle Examples.azel0) n i
   - correct_chi (ParallacticAngle Examples.azel0) n j = 0)%R.
Proof.
  rewrite !correct_chi_at. cbn [ParallacticAngle Examples.azel0].
  destruct (equatorial i), (equatorial j), (i =? 13), (j =? 13); lra.
Qed.

Lemma unrot_cdata_zero_angles_witness :
  (forall n i j,
      (correct_chi (ParallacticAngle Examples.azel0) n i
       - correct_chi (ParallacticAngle Examples.azel0) n j = 0)%R) /\
  (forall i j c, (dph_good Examples.cal0 i c - dph_good Examples.cal0 j c = 0)%R) /\
  x (unrot_cdata Examples.unit_data Examples.azel0 Examples.cal0) 0 1 1 0
  = x Examples.unit_data 0 1 1 0.
Proof.
  split; [exact zero_chi_azel0|].
  assert (Hd : forall i j c,
             (dph_good Examples.cal0 i c - dph_good Examples.cal0 j c = 0)%R)
    by (intros; unfold dph_good; simpl; lra).
  split; [exact Hd|].
  destruct (unrot_cdata_zero_angles Examples.unit_data Examples.azel0 Examples.cal0
              (fun k i j n _ _ _ => zero_chi_azel0 n i j)
              (fun k i j m _ _ _ => Hd i j _)) as [H01 _].
  exact (proj2 (H01 0 1 0)).
Defined.

(** C5 as stated fails: with zero parallactic angles and zero delay phases,
    product 2 of baseline 1 = (0, 1) in the dataset unrot builds is the
    input's 1 times exp(i*pi/2) = i. *)
Lemma unrot_zero_angles_changes_x :
  (forall n i j,
      (correct_chi (ParallacticAngle Examples.azel0) n i
       - correct_chi (ParallacticAngle Examples.azel0) n j = 0)%R) /\
  (forall i j c, (dph_good Examples.cal0 i c - dph_good Examples.cal0 j c = 0)%R) /\
  x Examples.unit_data 0 1 2 0 = C1 /\
  x (unrot_cdata Examples.unit_data Examples.azel0 Examples.cal0) 0 1 2 0 = Ci.
Proof.
  split; [exact zero_chi_azel0|].
  split; [intros; unfold dph_good; simpl; lra|].
  split; [reflexivity|].
  unfold unrot_cdata. cbn [x set_x].
  rewrite feed_rotation_zero by (intros; apply zero_chi_azel0).
  rewrite common_val_idx_cal0. cbn [fst snd].
  apply delay_phase_unit_data.
Qed.

(** * Further properties *)

(** ** The baseline order, continued *)

(** X1: the baseline order lists first the pairs whose antennas are at most
    8 apart, by second antenna and then by first, and after them the pairs
    9 or more apart, by first antenna and then by second. *)
Theorem get_bl_order_closed_form :
  get_bl_order = bl_short ++ bl_long /\
  (forall a b, In (a, b) bl_short <-> a <= b /\ b <= a + 8 /\ b < 16) /\
  (forall a b, In (a, b) bl_long <-> a + 9 <= b /\ b < 16).
Proof.
  split; [vm_compute; reflexivity|]. split; intros a b.
  - unfold bl_short. rewrite in_flat_map. split.
    + intros [i [Hi Hin]]. apply in_seq in Hi. apply in_map_iff in Hin.
      destruct Hin as [k [Hk Hin]]. inversion Hk. subst. apply in_seq in Hin. lia.
    + intros H. exists b. split; [apply in_seq; lia|].
      apply in_map_iff. exists a. split; [reflexivity | apply in_seq; lia].
  - unfold bl_long. rewrite in_flat_map. split.
    + intros [i [Hi Hin]]. apply in_seq in Hi. apply in_map_iff in Hin.
      destruct Hin as [k [Hk Hin]]. inversion Hk. subst. apply in_seq in Hin. lia.
    + intros H. exists a. split; [apply in_seq; lia|].
      apply in_map_iff. exists b. split; [reflexivity | apply in_seq; lia].
Qed.

(** ** apply_attn_corr, continued *)

Lemma py_index_Some_iff (n : nat) (b : Z) :
  (exists m, py_index n b = Some m) <-> (- Z.of_nat n <= b < Z.of_nat n)%Z.
Proof.
  unfold py_index.
  destruct ((0 <=? b)%Z && (b <? Z.of_nat n)%Z) eqn:E1.
  - apply andb_true_iff in E1. destruct E1 as [H0 H1].
    apply Z.leb_le in H0. apply Z.ltb_lt in H1.
    split; [lia | intros _; eexists; reflexivity].
  - destruct ((- Z.of_nat n <=? b)%Z && (b <? 0)%Z) eqn:E2.
    + apply andb_true_iff in E2. destruct E2 as [H0 H1].
      apply Z.leb_le in H0. apply Z.ltb_lt in H1.
      split; [lia | intros _; eexists; reflexivity].
    + split; [intros [m Hm]; discriminate|].
      intros H. exfalso.
      apply andb_false_iff in E1. apply andb_false_iff in E2.
      destruct E1 as [E1|E1], E2 as [E2|E2];
        try apply Z.leb_gt in E1; try apply Z.ltb_ge in E1;
        try apply Z.leb_gt in E2; try apply Z.ltb_ge in E2; lia.
Qed.

Lemma band_ok_iff (q : Q) : band_ok q = true <-> (-34 <= band_of q < 34)%Z.
Proof.
  unfold band_ok. rewrite <- (py_index_Some_iff 34 (band_of q)).
  destruct (py_index 34 (band_of q)) as [m|].
  - split; [intros _; exists m; reflexivity | reflexivity].
  - split; [discriminate | intros [m Hm]; discriminate].
Qed.

Lemma attn_input_ok_iff data src_gs :
  attn_input_ok data src_gs = true <->
  2 <= length (time data) /\
  length (time data) = length (times src_gs) /\
  (length (fghz data) = 134 \/ length (fghz data) = 1) /\
  (forall q, In q (fghz data) -> (-34 <= band_of q < 34)%Z).
Proof.
  unfold attn_input_ok.
  rewrite !andb_true_iff, orb_true_iff, Nat.leb_le, !Nat.eqb_eq, forallb_forall.
  split.
  - intros [[[H1 H2] H3] H4]. repeat split; auto;
      apply band_ok_iff; apply H4; assumption.
  - intros [H1 [H2 [H3 H4]]]. repeat split; auto.
    intros q Hq. apply band_ok_iff. apply H4. assumption.
Qed.

(** X2: apply_attn_corr returns a dataset exactly when the dataset has at
    least two time samples, the source gain state has as many times as the
    dataset, there are 134 frequencies or one, and every frequency has a
    band index from -34 to 33; on any other input it raises. *)
Theorem apply_attn_corr_returns_iff data ref_gs src_gs :
  (exists cdata, apply_attn_corr data ref_gs src_gs = Ok cdata) <->
  2 <= length (time data) /\
  length (time data) = length (times src_gs) /\
  (length (fghz data) = 134 \/ length (fghz data) = 1) /\
  (forall q, In q (fghz data) -> (-34 <= band_of q < 34)%Z).
Proof.
  rewrite <- attn_input_ok_iff. split.
  - intros [cdata Hc]. destruct (attn_input_ok data src_gs) eqn:E; [reflexivity|].
    destruct (apply_attn_corr_raises data ref_gs src_gs E) as [e He]. congruence.
  - intros Hok.
    destruct (apply_attn_corr_returns data ref_gs src_gs Hok) as [bl [_ Hret]].
    eexists. exact Hret.
Qed.

Lemma blist_idx_fails (l : list Q) (q : Q) :
  In q l -> band_ok q = false -> blist_idx l = Raise IndexError.
Proof.
  unfold blist_idx, blist, band_ok.
  induction l as [|a l IH]; intros Hin Hq; [contradiction|].
  cbn [map mapM].
  destruct (py_index 34 (band_of a)) as [m|] eqn:Ea; cbn [of_option bind].
  - destruct Hin as [->|Hin].
    + rewrite Ea in Hq. discriminate.
    + rewrite (IH Hin Hq). reflexivity.
  - reflexivity.
Qed.

Section BandRanges.

Local Open Scope Q_scope.

Lemma band_of_inject (q : Q) :
  inject_Z (band_of q) == inject_Z (Qtrunc (q * 2 - 1)) - 1.
Proof. unfold band_of, Z.sub. rewrite inject_Z_plus. reflexivity. Qed.

(** X3: a frequency from 1 GHz up to, but not including, 18 GHz is looked up
    in the band of its own half-GHz interval: band b for 1 + b/2 <= fghz <
    1.5 + b/2, with b from 0 to 33. *)
Theorem band_of_1_to_18GHz (q : Q) :
  1 <= q -> q < 18 ->
  exists b : nat,
    py_index 34 (band_of q) = Some b /\ (b < 34)%nat /\
    inject_Z (Z.of_nat b) + 2 <= q * 2 /\ q * 2 < inject_Z (Z.of_nat b) + 3.
Proof.
  intros H1 H18.
  assert (Hy : 0 <= q * 2 - 1) by Lqa.lra.
  destruct (Qtrunc_nonneg _ Hy) as [Hlo Hhi].
  set (T := Qtrunc (q * 2 - 1)) in *.
  assert (HT1 : (0 < T)%Z).
  { rewrite Zlt_Qlt. change (inject_Z 0) with 0. Lqa.lra. }
  assert (HT35 : (T < 35)%Z).
  { rewrite Zlt_Qlt. change (inject_Z 35) with 35. Lqa.lra. }
  assert (Hb : band_of q = (T - 1)%Z) by reflexivity.
  exists (Z.to_nat (T - 1)).
  assert (Hof : Z.of_nat (Z.to_nat (T - 1)) = (T - 1)%Z) by lia.
  split.
  - rewrite Hb. unfold py_index.
    destruct ((0 <=? T - 1)%Z && (T - 1 <? Z.of_nat 34)%Z) eqn:E; [reflexivity|].
    apply andb_false_iff in E. destruct E as [E|E];
      [apply Z.leb_gt in E | apply Z.ltb_ge in E]; lia.
  - split; [lia|]. rewrite Hof.
    assert (Hinj : inject_Z (T - 1) == inject_Z T - 1).
    { unfold Z.sub. rewrite inject_Z_plus. reflexivity. }
    rewrite Hinj. split; Lqa.lra.
Qed.

(** X4: a positive frequency below 1 GHz has band index -1, which indexes
    the gain tables from the end: its gains are those of band 33. *)
Theorem band_of_below_1GHz (q : Q) :
  0 < q -> q < 1 ->
  band_of q = (-1)%Z /\ py_index 34 (band_of q) = Some 33%nat.
Proof.
  intros H0 H1.
  assert (HT : Qtrunc (q * 2 - 1) = 0%Z).
  { destruct (Qlt_le_dec (q * 2 - 1) 0) as [Hneg|Hpos].
    - destruct (Qtrunc_nonpos (q * 2 - 1)) as [Hlo Hhi]; [Lqa.lra|].
      set (T := Qtrunc (q * 2 - 1)) in *.
      assert (A : (T < 1)%Z).
      { rewrite Zlt_Qlt. change (inject_Z 1) with 1. Lqa.lra. }
      assert (B : (-1 < T)%Z).
      { rewrite Zlt_Qlt. change (inject_Z (-1)) with (-1 # 1). Lqa.lra. }
      lia.
    - destruct (Qtrunc_nonneg (q * 2 - 1) Hpos) as [Hlo Hhi].
      set (T := Qtrunc (q * 2 - 1)) in *.
      assert (A : (T < 1)%Z).
      { rewrite Zlt_Qlt. change (inject_Z 1) with 1. Lqa.lra. }
      assert (B : (-1 < T)%Z).
      { rewrite Zlt_Qlt. change (inject_Z (-1)) with (-1 # 1). Lqa.lra. }
      lia. }
  unfold band_of. rewrite HT. split; reflexivity.
Qed.

Lemma band_of_18GHz_up (q : Q) : 18 <= q -> band_ok q = false.
Proof.
  intros H18.
  assert (Hy : 0 <= q * 2 - 1) by Lqa.lra.
  destruct (Qtrunc_nonneg _ Hy) as [Hlo Hhi].
  destruct (band_ok q) eqn:E; [|reflexivity].
  apply band_ok_iff in E. unfold band_of in E.
  set (T := Qtrunc (q * 2 - 1)) in *.
  assert (A : (34 < T)%Z).
  { rewrite Zlt_Qlt. change (inject_Z 34) with 34. Lqa.lra. }
  lia.
Qed.

End BandRanges.

(** X5: a dataset with a frequency of 18 GHz or more is rejected: the band
    index is 34 or more and the lookup in the 34-band gain tables raises
    IndexError. *)
Theorem apply_attn_corr_18GHz_up_raises data ref_gs src_gs (q : Q) :
  2 <= length (time data) -> In q (fghz data) -> (18 <= q)%Q ->
  apply_attn_corr data ref_gs src_gs = Raise IndexError.
Proof.
  intros Ht Hin H18. unfold apply_attn_corr.
  destruct (time data) as [|t0 [|t1 ts]]; simpl in Ht; try lia.
  rewrite (blist_idx_fails (fghz data) q Hin (band_of_18GHz_up q H18)).
  reflexivity.
Qed.

Lemma band_of_1_to_18GHz_witness :
  (1 <= 19 # 10)%Q /\ (19 # 10 < 18)%Q /\
  exists b : nat,
    py_index 34 (band_of (19 # 10)) = Some b /\ b < 34 /\
    (inject_Z (Z.of_nat b) + 2 <= (19 # 10) * 2 /\
     (19 # 10) * 2 < inject_Z (Z.of_nat b) + 3)%Q.
Proof.
  assert (H1 : (1 <= 19 # 10)%Q) by (unfold Qle; simpl; lia).
  assert (H2 : (19 # 10 < 18)%Q) by (unfold Qlt; simpl; lia).
  split; [exact H1|]. split; [exact H2|].
  exact (band_of_1_to_18GHz (19 # 10) H1 H2).
Defined.

Lemma band_of_below_1GHz_witness :
  (0 < 7 # 10)%Q /\ (7 # 10 < 1)%Q /\
  band_of (7 # 10) = (-1)%Z /\ py_index 34 (band_of (7 # 10)) = Some 33.
Proof.
  assert (H1 : (0 < 7 # 10)%Q) by (unfold Qlt; simpl; lia).
  assert (H2 : (7 # 10 < 1)%Q) by (unfold Qlt; simpl; lia).
  split; [exact H1|]. split; [exact H2|].
  exact (band_of_below_1GHz (7 # 10) H1 H2).
Defined.

Lemma apply_attn_corr_18GHz_up_raises_witness :
  2 <= length (time MoreExamples.data_18) /\
  In 18%Q (fghz MoreExamples.data_18) /\ (18 <= 18)%Q /\
  apply_attn_corr MoreExamples.data_18 Examples.ref_gs0 Examples.src_gs0
  = Raise IndexError.
Proof.
  assert (H1 : 2 <= length (time MoreExamples.data_18)) by (simpl; lia).
  assert (H2 : In 18%Q (fghz MoreExamples.data_18)) by (left; reflexivity).
  assert (H3 : (18 <= 18)%Q) by (unfold Qle; simpl; lia).
  split; [exact H1|]. split; [exact H2|]. split; [exact H3|].
  exact (apply_attn_corr_18GHz_up_raises MoreExamples.data_18 Examples.ref_gs0
           Examples.src_gs0 18%Q H1 H2 H3).
Defined.

Lemma pow10_pos (y : R) : (0 < pow10 y)%R.
Proof. unfold pow10, Rpower. apply exp_pos. Qed.

Lemma pow10_opp (y : R) : (pow10 y * pow10 (- y) = 1)%R.
Proof.
  unfold pow10. rewrite <- Rpower_plus.
  replace (y + - y)%R with 0%R by lra. apply Rpower_O. lra.
Qed.

Lemma Cscale_Cscale (a : C) (r1 r2 : R) :
  ((a *r r1) *r r2)%C = (a *r (r1 * r2)%R)%C.
Proof. apply C_eq; simpl; lra. Qed.

Lemma attn_row_id data src_gs (f : nat) :
  attn_input_ok data src_gs = true -> f < length (fghz data) ->
  (if length (fghz data) =? 1 then 0 else f) = f /\ f < 134.
Proof.
  intros Hok Hf. apply attn_input_ok_iff in Hok.
  destruct Hok as [_ [_ [Hnf _]]].
  destruct (length (fghz data) =? 1) eqn:E.
  - apply Nat.eqb_eq in E. lia.
  - apply Nat.eqb_neq in E. lia.
Qed.

(** X6: the power arrays.  For each of the first 15 antennas the power
    moment (index 0) of px is multiplied by 10 ** (antgain[a, H] / 10) and
    the power-squared moment (index 1) by the square of that factor, py
    likewise with the V gain; the third moment, and antenna 15 in every
    moment, are returned as they came.  The band is that of frequency row r
    (of frequency 0 when the dataset has one frequency), the gain time the
    one nearest to the data time. *)
Theorem apply_attn_corr_power data ref_gs src_gs :
  attn_input_ok data src_gs = true ->
  exists cdata,
    apply_attn_corr data ref_gs src_gs = Ok cdata /\
    forall r a t, r < 134 -> t < length (time data) ->
      (a < 15 ->
       exists band g,
         py_index 34
           (band_of (nth (if length (fghz data) =? 1 then 0 else r)
                         (fghz data) 0%Q)) = Some band /\
         g = nth t (nearest_val_idx (time data) (times src_gs)) 0 /\
         let ref := ref_median ref_gs in
         let gh := pow10 (antgain src_gs ref a 0 band g / 10) in
         let gv := pow10 (antgain src_gs ref a 1 band g / 10) in
         px cdata r a 0 t = (px data r a 0%nat t * gh)%R /\
         px cdata r a 1 t = (px data r a 1%nat t * gh ^ 2)%R /\
         py cdata r a 0 t = (py data r a 0%nat t * gv)%R /\
         py cdata r a 1 t = (py data r a 1%nat t * gv ^ 2)%R) /\
      (forall m, 15 <= a \/ 2 <= m ->
                 px cdata r a m t = px data r a m t /\
                 py cdata r a m t = py data r a m t).
Proof.
  intros Hok.
  destruct (apply_attn_corr_returns data ref_gs src_gs Hok) as [bl [Hbl Hret]].
  eexists. split; [exact Hret|]. cbn zeta. cbn [px py].
  intros r a t Hr Ht. split.
  - intros Ha.
    pose proof (attn_row_lt data src_gs r Hok Hr) as Hrow.
    destruct (blist_idx_nth _ bl _ Hbl Hrow) as [Hband _].
    eexists. eexists. split; [exact Hband|]. split; [reflexivity|].
    unfold power_corr. apply Nat.ltb_lt in Ha. rewrite Ha.
    repeat split; reflexivity.
  - intros m Hm. unfold power_corr.
    destruct (a <? 15) eqn:Ea; [|split; reflexivity].
    apply Nat.ltb_lt in Ea.
    destruct m as [|[|m]]; try lia. split; reflexivity.
Qed.

Lemma apply_attn_corr_power_witness :
  attn_input_ok Examples.unit_data Examples.src_gs6 = true /\
  exists cdata,
    apply_attn_corr Examples.unit_data Examples.ref_gs0 Examples.src_gs6 = Ok cdata /\
    px cdata 0 15 0 0 = px Examples.unit_data 0 15 0 0 /\
    px cdata 0 0 2 0 = px Examples.unit_data 0 0 2 0.
Proof.
  split; [reflexivity|].
  destruct (apply_attn_corr_power Examples.unit_data Examples.ref_gs0
              Examples.src_gs6 eq_refl) as [cdata [Hret H]].
  exists cdata. split; [exact Hret|]. split.
  - destruct (H 0 15 0) as [_ Hm]; try (simpl; lia).
    exact (proj1 (Hm 0 (or_introl (le_n 15)))).
  - destruct (H 0 0 0) as [_ Hm]; try (simpl; lia).
    exact (proj1 (Hm 2 (or_intror (le_n 2)))).
Defined.

(** X7: the auto-correlations and the powers are corrected alike.  For one
    of the first 15 antennas the HH product of its auto-correlation baseline
    (a, a) is multiplied by the factor that multiplies the power moment of
    px, and the VV product by the factor of py; both factors are positive. *)
Theorem apply_attn_corr_auto_matches_power data ref_gs src_gs :
  attn_input_ok data src_gs = true ->
  exists cdata,
    apply_attn_corr data ref_gs src_gs = Ok cdata /\
    forall f k a t,
      nth_error get_bl_order k = Some (a, a) -> a < 15 ->
      f < length (fghz data) -> t < length (time data) ->
      exists gh gv,
        (0 < gh)%R /\ (0 < gv)%R /\
        px cdata f a 0 t = (px data f a 0%nat t * gh)%R /\
        x cdata f k 0 t = (x data f k 0 t *r gh)%C /\
        py cdata f a 0 t = (py data f a 0%nat t * gv)%R /\
        x cdata f k 1 t = (x data f k 1 t *r gv)%C.
Proof.
  intros Hok.
  destruct (apply_attn_corr_returns data ref_gs src_gs Hok) as [bl [Hbl Hret]].
  eexists. split; [exact Hret|]. cbn zeta. cbn [x px py].
  intros f k a t Hk Ha Hf Ht.
  destruct (attn_row_id data src_gs f Hok Hf) as [Hrow _].
  set (g := nth t (nearest_val_idx (time data) (times src_gs)) 0).
  set (ag := antgain src_gs (ref_median ref_gs)).
  exists (pow10 (ag a 0%nat (nth f bl 0%nat) g / 10)),
         (pow10 (ag a 1%nat (nth f bl 0%nat) g / 10)).
  split; [apply pow10_pos|]. split; [apply pow10_pos|].
  unfold power_corr. rewrite Hrow.
  assert (Ha' : (a <? 15) = true) by (apply Nat.ltb_lt; exact Ha). rewrite Ha'.
  rewrite (blgain_corrected _ _ f k 0 _ a a Hk Ha Ha) by lia.
  rewrite (blgain_corrected _ _ f k 1 _ a a Hk Ha Ha) by lia.
  cbn [pol_i pol_j]. fold ag. fold g.
  repeat split; try reflexivity; f_equal; f_equal; lra.
Qed.

Lemma bl_order_0 : nth_error get_bl_order 0 = Some (0, 0).
Proof. reflexivity. Qed.

Lemma apply_attn_corr_auto_matches_power_witness :
  attn_input_ok Examples.unit_data Examples.src_gs6 = true /\
  nth_error get_bl_order 0 = Some (0, 0) /\
  exists cdata gh,
    apply_attn_corr Examples.unit_data Examples.ref_gs0 Examples.src_gs6 = Ok cdata /\
    px cdata 0 0 0 0 = (px Examples.unit_data 0%nat 0%nat 0%nat 0%nat * gh)%R /\
    x cdata 0 0 0 0 = (x Examples.unit_data 0 0 0 0 *r gh)%C.
Proof.
  split; [reflexivity|]. split; [reflexivity|].
  destruct (apply_attn_corr_auto_matches_power Examples.unit_data Examples.ref_gs0
              Examples.src_gs6 eq_refl) as [cdata [Hret H]].
  destruct (H 0 0 0 0 bl_order_0) as [gh [gv [_ [_ [Hp [Hx _]]]]]];
    try (simpl; lia).
  exists cdata, gh. split; [exact Hret|]. split; [exact Hp | exact Hx].
Defined.

(** X8: on the baselines of the first 15 antennas the gain factor is
    positive, so the correction loses nothing: the input value is the
    returned value divided by the factor. *)
Theorem apply_attn_corr_gain_positive data ref_gs src_gs :
  attn_input_ok data src_gs = true ->
  exists cdata,
    apply_attn_corr data ref_gs src_gs = Ok cdata /\
    forall f k i j p t,
      nth_error get_bl_order k = Some (i, j) -> i < 15 -> j < 15 -> p < 4 ->
      exists g,
        (0 < g)%R /\
        x cdata f k p t = (x data f k p t *r g)%C /\
        x data f k p t = (x cdata f k p t *r / g)%C.
Proof.
  intros Hok.
  destruct (apply_attn_corr_returns data ref_gs src_gs Hok) as [bl [Hbl Hret]].
  eexists. split; [exact Hret|]. cbn zeta. cbn [x].
  intros f k i j p t Hk Hi Hj Hp.
  rewrite (blgain_corrected _ _ f k p _ i j Hk Hi Hj Hp).
  eexists. split; [apply pow10_pos|]. split; [reflexivity|].
  rewrite Cscale_Cscale. rewrite Rinv_r.
  - symmetry. apply Cscale_1.
  - apply Rgt_not_eq. apply pow10_pos.
Qed.

Lemma apply_attn_corr_gain_positive_witness :
  attn_input_ok Examples.unit_data Examples.src_gs6 = true /\
  exists cdata g,
    apply_attn_corr Examples.unit_data Examples.ref_gs0 Examples.src_gs6 = Ok cdata /\
    (0 < g)%R /\
    x Examples.unit_data 0 1 0 0 = (x cdata 0 1 0 0 *r / g)%C.
Proof.
  split; [reflexivity|].
  destruct (apply_attn_corr_gain_positive Examples.unit_data Examples.ref_gs0
              Examples.src_gs6 eq_refl) as [cdata [Hret H]].
  destruct (H 0 1 0 1 0 0 bl_order_1) as [g [Hg [_ Hinv]]]; try lia.
  exists cdata, g. split; [exact Hret|]. split; [exact Hg | exact Hinv].
Defined.

(** ** Gain states constant in time *)

Lemma sort_R_const (c : R) (l : list R) : Forall (eq c) l -> sort_R l = l.
Proof.
  induction 1 as [|a l Ha Hl IH]; [reflexivity|].
  subst a. cbn [sort_R fold_right]. fold (sort_R l). rewrite IH.
  destruct l as [|b l']; [reflexivity|].
  cbn [insert_sorted]. inversion Hl; subst.
  destruct (Rle_dec b b) as [_|Hn]; [reflexivity | exfalso; apply Hn; lra].
Qed.

Lemma Forall_eq_nth (c : R) (l : list R) (n : nat) :
  Forall (eq c) l -> n < length l -> nth n l 0%R = c.
Proof.
  intros H Hn. rewrite Forall_forall in H. symmetry. apply H.
  apply nth_In. exact Hn.
Qed.

(** The median of equal values is that value. *)
Lemma median_const (c : R) (l : list R) :
  l <> [] -> Forall (eq c) l -> median l = c.
Proof.
  intros Hne Hall. unfold median. rewrite (sort_R_const c l Hall).
  assert (Hlen : 0 < length l) by (destruct l; [congruence | simpl; lia]).
  assert (Hhalf : length l / 2 < length l) by (apply Nat.div_lt; lia).
  destruct (Nat.even (length l)) eqn:E.
  - rewrite !(Forall_eq_nth c l) by (assumption || lia). lra.
  - apply Forall_eq_nth; assumption.
Qed.

Lemma median_rows_const (h : nat -> nat -> R) (n i : nat) (c : R) :
  0 < n -> (forall t, t < n -> h i t = c) -> median_rows h n i = c.
Proof.
  intros Hn Hc. unfold median_rows. apply median_const.
  - destruct n; [lia | discriminate].
  - apply Forall_forall. intros y Hy. apply in_map_iff in Hy.
    destruct Hy as [t [<- Ht]]. apply in_seq in Ht. symmetry. apply Hc. lia.
Qed.

(** The medians of a gain state constant in time are its values. *)
Lemma ref_median_const (gs : GainState) (c : RefGain) (i : nat) :
  same_gain_state gs c -> times gs <> [] -> i < 15 ->
  ref_h1 (ref_median gs) i = ref_h1 c i /\
  ref_h2 (ref_median gs) i = ref_h2 c i /\
  ref_v1 (ref_median gs) i = ref_v1 c i /\
  ref_v2 (ref_median gs) i = ref_v2 c i.
Proof.
  intros [Hh _] Hne Hi.
  assert (Hn : 0 < length (times gs))
    by (destruct (times gs); [congruence | simpl; lia]).
  unfold ref_median. cbn [ref_h1 ref_h2 ref_v1 ref_v2].
  repeat split; apply median_rows_const; try exact Hn;
    intros t Ht; destruct (Hh i t Hi Ht) as [E1 [E2 [E3 E4]]]; assumption.
Qed.

(** Exchanging the source and the reference negates every antenna gain. *)
Lemma antgain_swap (ga gb : GainState) (a b : RefGain) (i p band t t' : nat) :
  same_gain_state ga a -> same_gain_state gb b ->
  times ga <> [] -> times gb <> [] ->
  i < 15 -> p < 2 -> band < 34 ->
  t < length (times gb) -> t' < length (times ga) ->
  antgain ga (ref_median gb) i p band t'
  = (- antgain gb (ref_median ga) i p band t)%R.
Proof.
  intros Ha Hb Hna Hnb Hi Hp Hband Ht Ht'.
  rewrite !antgain_split by assumption.
  unfold comp_diff, attn_diff.
  destruct (ref_median_const ga a i Ha Hna Hi) as [A1 [A2 [A3 A4]]].
  destruct (ref_median_const gb b i Hb Hnb Hi) as [B1 [B2 [B3 B4]]].
  rewrite A1, A2, A3, A4, B1, B2, B3, B4.
  cbn [ref_median ref_dcmattn].
  destruct Ha as [Ha _]. destruct Hb as [Hb _].
  destruct (Ha i t' Hi Ht') as [E1 [E2 [E3 E4]]].
  destruct (Hb i t Hi Ht) as [F1 [F2 [F3 F4]]].
  rewrite E1, E2, E3, E4, F1, F2, F3, F4.
  destruct p; lra.
Qed.

Lemma pow10_div_cancel (y y' d : R) :
  y' = (- y)%R -> (pow10 (y / d) * pow10 (y' / d) = 1)%R.
Proof.
  intros ->. replace (- y / d)%R with (- (y / d))%R by (unfold Rdiv; ring).
  apply pow10_opp.
Qed.

(** X9: correcting to a reference and back.  When the two gain states A and
    B are each constant in time, correcting a dataset from source B to
    reference A and then correcting the result from source A to reference B
    gives back the input: x on every baseline of the first 15 antennas, and
    px and py everywhere. *)
Theorem apply_attn_corr_swap_roundtrip data (ga gb : GainState) (a b : RefGain) :
  attn_input_ok data ga = true -> attn_input_ok data gb = true ->
  same_gain_state ga a -> same_gain_state gb b ->
  exists c1 c2,
    apply_attn_corr data ga gb = Ok c1 /\
    apply_attn_corr c1 gb ga = Ok c2 /\
    (forall f k i j p t,
        nth_error get_bl_order k = Some (i, j) -> i < 15 -> j < 15 -> p < 4 ->
        f < length (fghz data) -> t < length (time data) ->
        x c2 f k p t = x data f k p t) /\
    (forall r n m t,
        r < 134 -> n < 16 -> m < 3 -> t < length (time data) ->
        px c2 r n m t = px data r n m t /\ py c2 r n m t = py data r n m t).
Proof.
  intros Hoka Hokb Ha Hb.
  destruct (apply_attn_corr_returns data ga gb Hokb) as [bl [Hbl Hret1]].
  cbv zeta in Hret1.
  set (c1 := mkDataset (time data) (fghz data)
               (fun f k p t =>
                  (x data f k p t *r
                   blgain (antgain gb (ref_median ga)) (fun f0 => nth f0 bl 0) f k p
                     (nth t (nearest_val_idx (time data) (times gb)) 0))%C)
               (power_corr (px data) 0
                  (fun f a0 p t =>
                     pow10 (antgain gb (ref_median ga) a0 p (nth f bl 0) t / 10))
                  (fun r => if length (fghz data) =? 1 then 0 else r)
                  (fun t => nth t (nearest_val_idx (time data) (times gb)) 0))
               (power_corr (py data) 1
                  (fun f a0 p t =>
                     pow10 (antgain gb (ref_median ga) a0 p (nth f bl 0) t / 10))
                  (fun r => if length (fghz data) =? 1 then 0 else r)
                  (fun t => nth t (nearest_val_idx (time data) (times gb)) 0))
               (masked_keys data)) in *.
  assert (Hoka1 : attn_input_ok c1 ga = true) by exact Hoka.
  destruct (apply_attn_corr_returns c1 gb ga Hoka1) as [bl' [Hbl' Hret2]].
  cbv zeta in Hret2.
  assert (Ebl : bl' = bl).
  { cbn [c1 fghz] in Hbl'. rewrite Hbl in Hbl'. congruence. }
  subst bl'.
  exists c1. eexists. split; [exact Hret1|]. split; [exact Hret2|].
  pose proof (attn_times_nonempty data ga Hoka) as Hna.
  pose proof (attn_times_nonempty data gb Hokb) as Hnb.
  assert (Hita : forall t, t < length (time data) ->
            nth t (nearest_val_idx (time data) (times ga)) 0 < length (times ga))
    by (intros; apply nearest_val_idx_nth; assumption).
  assert (Hitb : forall t, t < length (time data) ->
            nth t (nearest_val_idx (time data) (times gb)) 0 < length (times gb))
    by (intros; apply nearest_val_idx_nth; assumption).
  cbn [x px py time fghz c1]. split.
  - intros f k i j p t Hk Hi Hj Hp Hf Ht.
    destruct (blist_idx_nth _ bl f Hbl Hf) as [_ Hband].
    rewrite !(blgain_corrected _ _ f k p _ i j Hk Hi Hj Hp).
    rewrite Cscale_Cscale.
    rewrite (antgain_swap ga gb a b i (pol_i p) (nth f bl 0)
               (nth t (nearest_val_idx (time data) (times gb)) 0)
               (nth t (nearest_val_idx (time data) (times ga)) 0))
      by (auto using pol_i_lt).
    rewrite (antgain_swap ga gb a b j (pol_j p) (nth f bl 0)
               (nth t (nearest_val_idx (time data) (times gb)) 0)
               (nth t (nearest_val_idx (time data) (times ga)) 0))
      by (auto using pol_j_lt).
    match goal with
    | |- (_ *r (pow10 ?u * pow10 ?v)%R)%C = _ =>
        replace v with (- u)%R by lra; rewrite pow10_opp
    end.
    apply Cscale_1.
  - intros r n m t Hr Hn Hm Ht. unfold power_corr.
    destruct (n <? 15) eqn:En; [|split; reflexivity].
    apply Nat.ltb_lt in En.
    pose proof (attn_row_lt data ga r Hoka Hr) as Hrow.
    destruct (blist_idx_nth _ bl _ Hbl Hrow) as [_ Hband].
    set (row := if length (fghz data) =? 1 then 0 else r) in *.
    set (ta := nth t (nearest_val_idx (time data) (times ga)) 0).
    set (tb := nth t (nearest_val_idx (time data) (times gb)) 0).
    assert (S0 : antgain ga (ref_median gb) n 0 (nth row bl 0) ta
                 = Ropp (antgain gb (ref_median ga) n 0 (nth row bl 0) tb))
      by (apply (antgain_swap ga gb a b); unfold ta, tb; auto; lia).
    assert (S1 : antgain ga (ref_median gb) n 1 (nth row bl 0) ta
                 = Ropp (antgain gb (ref_median ga) n 1 (nth row bl 0) tb))
      by (apply (antgain_swap ga gb a b); unfold ta, tb; auto; lia).
    destruct m as [|[|m]]; split; try reflexivity.
    + rewrite Rmult_assoc, (pow10_div_cancel _ _ 10 S0). lra.
    + rewrite Rmult_assoc, (pow10_div_cancel _ _ 10 S1). lra.
    + match goal with
      | |- (?q * ?u ^ 2 * ?w ^ 2)%R = _ =>
          replace (q * u ^ 2 * w ^ 2)%R with (q * ((u * w) * (u * w)))%R by ring
      end.
      rewrite (pow10_div_cancel _ _ 10 S0). lra.
    + match goal with
      | |- (?q * ?u ^ 2 * ?w ^ 2)%R = _ =>
          replace (q * u ^ 2 * w ^ 2)%R with (q * ((u * w) * (u * w)))%R by ring
      end.
      rewrite (pow10_div_cancel _ _ 10 S1). lra.
Qed.

Lemma same_gain_state_gain_a :
  same_gain_state MoreExamples.gain_a MoreExamples.gain_a_const.
Proof. split; intros; simpl; auto. Qed.

Lemma same_gain_state_src_gs0 :
  same_gain_state Examples.src_gs0 MoreExamples.gain_zero_const.
Proof. split; intros; simpl; auto. Qed.

Lemma apply_attn_corr_swap_roundtrip_witness :
  attn_input_ok Examples.unit_data MoreExamples.gain_a = true /\
  attn_input_ok Examples.unit_data Examples.src_gs0 = true /\
  exists c1 c2,
    apply_attn_corr Examples.unit_data MoreExamples.gain_a Examples.src_gs0 = Ok c1 /\
    apply_attn_corr c1 Examples.src_gs0 MoreExamples.gain_a = Ok c2 /\
    x c2 0 1 0 0 = x Examples.unit_data 0 1 0 0.
Proof.
  split; [reflexivity|]. split; [reflexivity|].
  destruct (apply_attn_corr_swap_roundtrip Examples.unit_data MoreExamples.gain_a
              Examples.src_gs0 MoreExamples.gain_a_const
              MoreExamples.gain_zero_const eq_refl eq_refl
              same_gain_state_gain_a same_gain_state_src_gs0)
    as [c1 [c2 [H1 [H2 [Hx _]]]]].
  exists c1, c2. split; [exact H1|]. split; [exact H2|].
  apply (Hx 0 1 0 1 0 0 bl_order_1); simpl; lia.
Defined.

(** ** get_calfac *)

Lemma antnum_ok_iff (e : AntCal) :
  antnum_ok e = true <-> exists s, py_index 13 (Antnum e - 1) = Some s.
Proof.
  rewrite py_index_Some_iff. unfold antnum_ok.
  rewrite andb_true_iff, !Z.leb_le. lia.
Qed.

Lemma calfac_loop_returns (ants : list AntCal) : forall t,
    forallb antnum_ok ants = true -> exists t', calfac_loop ants t = Ok t'.
Proof.
  induction ants as [|e ants IH]; intros t H.
  - eexists. reflexivity.
  - cbn [forallb] in H. apply andb_true_iff in H. destruct H as [He Hr].
    apply antnum_ok_iff in He. destruct He as [s Hs].
    cbn [calfac_loop]. rewrite Hs. cbn [of_option bind]. apply IH. exact Hr.
Qed.

Lemma calfac_loop_raises (ants : list AntCal) : forall t,
    forallb antnum_ok ants = false -> calfac_loop ants t = Raise IndexError.
Proof.
  induction ants as [|e ants IH]; intros t H.
  - discriminate.
  - cbn [forallb] in H. cbn [calfac_loop].
    destruct (py_index 13 (Antnum e - 1)) as [s|] eqn:Es; cbn [of_option bind].
    + assert (He : antnum_ok e = true) by (apply antnum_ok_iff; eauto).
      rewrite He in H. apply IH. exact H.
    + reflexivity.
Qed.

Lemma calfac_loop_app (l1 l2 : list AntCal) : forall t,
    calfac_loop (l1 ++ l2) t = (t1 <- calfac_loop l1 t ;; calfac_loop l2 t1).
Proof.
  induction l1 as [|e l1 IH]; intros t.
  - reflexivity.
  - cbn [app calfac_loop].
    destruct (py_index 13 (Antnum e - 1)) as [s|]; cbn [of_option bind].
    + apply IH.
    + reflexivity.
Qed.

(** A slot that no entry of the list is stored in keeps what it holds. *)
Lemma calfac_loop_keeps (ants : list AntCal) (s : nat) : forall t t',
    calfac_loop ants t = Ok t' ->
    (forall e, In e ants -> py_index 13 (Antnum e - 1) <> Some s) ->
    forall p f,
      tpcalfac t' s p f = tpcalfac t s p f /\ tpoffsun t' s p f = tpoffsun t s p f /\
      accalfac t' s p f = accalfac t s p f /\ acoffsun t' s p f = acoffsun t s p f.
Proof.
  induction ants as [|e ants IH]; intros t t' Hrun Hnot p f.
  - inversion Hrun. subst. auto.
  - cbn [calfac_loop] in Hrun.
    destruct (py_index 13 (Antnum e - 1)) as [s'|] eqn:Es;
      cbn [of_option bind] in Hrun; [|discriminate].
    assert (Hne : s <> s').
    { intros ->. apply (Hnot e (or_introl eq_refl)). exact Es. }
    destruct (IH _ _ Hrun (fun e' H' => Hnot e' (or_intror H')) p f)
      as [H1 [H2 [H3 H4]]].
    rewrite H1, H2, H3, H4.
    unfold store_ant, set_ant. cbn [tpcalfac tpoffsun accalfac acoffsun].
    apply Nat.eqb_neq in Hne. rewrite Hne. auto.
Qed.

(** X10: get_calfac returns when every antenna number of the record is
    between -12 and 13, and then hands on the record's frequencies and
    timestamp; one antenna number outside that range makes it raise
    IndexError. *)
Theorem get_calfac_returns_iff (rec : TPCalRecord) :
  ((forall e, In e (tp_antennas rec) -> (-12 <= Antnum e <= 13)%Z) ->
   exists cf, get_calfac rec = Ok cf /\
              cf_fghz cf = tp_fghz rec /\ cf_timestamp cf = tp_timestamp rec) /\
  ((exists e, In e (tp_antennas rec) /\ (Antnum e < -12 \/ 13 < Antnum e)%Z) ->
   get_calfac rec = Raise IndexError).
Proof.
  unfold get_calfac. split.
  - intros H.
    assert (Hall : forallb antnum_ok (tp_antennas rec) = true).
    { apply forallb_forall. intros e He. specialize (H e He).
      unfold antnum_ok. apply andb_true_iff. rewrite !Z.leb_le. lia. }
    destruct (calfac_loop_returns _ zero_tables Hall) as [t' Ht'].
    rewrite Ht'. cbn [bind]. eexists. split; [reflexivity|].
    split; reflexivity.
  - intros [e [He Hbad]].
    assert (Hall : forallb antnum_ok (tp_antennas rec) = false).
    { destruct (forallb antnum_ok (tp_antennas rec)) eqn:E; [|reflexivity].
      rewrite forallb_forall in E. specialize (E e He).
      unfold antnum_ok in E. apply andb_true_iff in E.
      rewrite !Z.leb_le in E. lia. }
    rewrite (calfac_loop_raises _ zero_tables Hall). reflexivity.
Qed.

(** X11: an antenna slot that no entry of the record is stored in comes
    back as zeros in all four tables. *)
Theorem get_calfac_absent_antenna_zero (rec : TPCalRecord) (s : nat) :
  forallb antnum_ok (tp_antennas rec) = true ->
  (forall e, In e (tp_antennas rec) -> py_index 13 (Antnum e - 1) <> Some s) ->
  exists cf,
    get_calfac rec = Ok cf /\
    slot_is (cf_tables cf) s (fun _ _ => 0%R) (fun _ _ => 0%R)
            (fun _ _ => 0%R) (fun _ _ => 0%R).
Proof.
  intros Hall Hnot. unfold get_calfac.
  destruct (calfac_loop_returns _ zero_tables Hall) as [t' Ht'].
  rewrite Ht'. cbn [bind]. eexists. split; [reflexivity|].
  cbn [cf_tables]. intros p f.
  exact (calfac_loop_keeps _ s _ _ Ht' Hnot p f).
Qed.

Lemma get_calfac_absent_antenna_zero_witness :
  forallb antnum_ok
    (tp_antennas (MoreExamples.tp_rec [MoreExamples.ant 1 1; MoreExamples.ant 3 3]))
  = true /\
  exists cf,
    get_calfac (MoreExamples.tp_rec [MoreExamples.ant 1 1; MoreExamples.ant 3 3])
    = Ok cf /\
    tpcalfac (cf_tables cf) 1 0 0 = 0%R.
Proof.
  split; [reflexivity|].
  destruct (get_calfac_absent_antenna_zero
              (MoreExamples.tp_rec [MoreExamples.ant 1 1; MoreExamples.ant 3 3])
              1 eq_refl) as [cf [Hret Hz]].
  - intros e [<-|[<-|[]]]; discriminate.
  - exists cf. split; [exact Hret|]. exact (proj1 (Hz 0 0)).
Defined.

(** X12: the slot an entry is stored in and what it holds at the end.  An
    entry with antenna number n from 1 to 13 is stored in slot n - 1; one
    with a number from -12 to 0 is stored from the end, in slot n + 12.
    When several entries are stored in one slot the last one stays: the
    slot returns the tables of the entry after which no other entry is
    stored in it. *)
Theorem get_calfac_last_entry_wins (rec : TPCalRecord)
    (before after : list AntCal) (e : AntCal) :
  tp_antennas rec = before ++ e :: after ->
  forallb antnum_ok (tp_antennas rec) = true ->
  (forall e', In e' after ->
              py_index 13 (Antnum e' - 1) <> py_index 13 (Antnum e - 1)) ->
  exists cf s,
    get_calfac rec = Ok cf /\
    py_index 13 (Antnum e - 1) = Some s /\
    Z.of_nat s
    = (if (1 <=? Antnum e)%Z then Antnum e - 1 else Antnum e + 12)%Z /\
    slot_is (cf_tables cf) s (TPCalfac e) (TPOffsun e) (ACCalfac e) (ACOffsun e).
Proof.
  intros Hsplit Hall Hafter. unfold get_calfac.
  destruct (calfac_loop_returns _ zero_tables Hall) as [t' Ht'].
  rewrite Ht'. cbn [bind].
  rewrite Hsplit in Ht', Hall. rewrite calfac_loop_app in Ht'.
  destruct (calfac_loop before zero_tables) as [t1|] eqn:E1;
    cbn [bind] in Ht'; [|discriminate].
  cbn [calfac_loop] in Ht'.
  rewrite forallb_app in Hall. apply andb_true_iff in Hall.
  destruct Hall as [_ Hall]. cbn [forallb] in Hall.
  apply andb_true_iff in Hall. destruct Hall as [He _].
  pose proof He as He'. apply antnum_ok_iff in He'. destruct He' as [s Hs].
  rewrite Hs in Ht'. cbn [of_option bind] in Ht'.
  eexists. exists s. split; [reflexivity|]. split; [exact Hs|]. split.
  - unfold antnum_ok in He. apply andb_true_iff in He.
    rewrite !Z.leb_le in He. unfold py_index in Hs.
    destruct ((0 <=? Antnum e - 1)%Z && (Antnum e - 1 <? Z.of_nat 13)%Z) eqn:E.
    + inversion Hs. apply andb_true_iff in E. destruct E as [E0 _].
      apply Z.leb_le in E0.
      destruct (Z.leb_spec 1 (Antnum e)); lia.
    + destruct ((- Z.of_nat 13 <=? Antnum e - 1)%Z && (Antnum e - 1 <? 0)%Z) eqn:E';
        [|discriminate].
      inversion Hs. apply andb_true_iff in E'. destruct E' as [_ E0].
      apply Z.ltb_lt in E0.
      destruct (Z.leb_spec 1 (Antnum e)); lia.
  - cbn [cf_tables]. intros p f.
    assert (Hnot : forall e', In e' after -> py_index 13 (Antnum e' - 1) <> Some s).
    { intros e' He'. rewrite <- Hs. apply Hafter. exact He'. }
    destruct (calfac_loop_keeps _ s _ _ Ht' Hnot p f) as [H1 [H2 [H3 H4]]].
    rewrite H1, H2, H3, H4.
    unfold store_ant, set_ant. cbn [tpcalfac tpoffsun accalfac acoffsun].
    rewrite Nat.eqb_refl. auto.
Qed.

(** Antenna 2 is stored twice and antenna 0 once: slot 1 returns the second
    table of antenna 2, and antenna 0 has landed in slot 12. *)
Lemma get_calfac_last_entry_wins_witness :
  (exists cf,
     get_calfac (MoreExamples.tp_rec
                   [MoreExamples.ant 2 5; MoreExamples.ant 2 7; MoreExamples.ant 0 9])
     = Ok cf /\
     tpcalfac (cf_tables cf) 1 0 0 = 7%R) /\
  (exists cf,
     get_calfac (MoreExamples.tp_rec
                   [MoreExamples.ant 2 5; MoreExamples.ant 2 7; MoreExamples.ant 0 9])
     = Ok cf /\
     tpcalfac (cf_tables cf) 12 0 0 = 9%R).
Proof.
  split.
  - destruct (get_calfac_last_entry_wins
                (MoreExamples.tp_rec
                   [MoreExamples.ant 2 5; MoreExamples.ant 2 7; MoreExamples.ant 0 9])
                [MoreExamples.ant 2 5] [MoreExamples.ant 0 9]
                (MoreExamples.ant 2 7) eq_refl eq_refl)
      as [cf [s [Hret [Hs [_ Hslot]]]]].
    + intros e' [<-|[]]. discriminate.
    + exists cf. split; [exact Hret|].
      inversion Hs. subst s. exact (proj1 (Hslot 0 0)).
  - destruct (get_calfac_last_entry_wins
                (MoreExamples.tp_rec
                   [MoreExamples.ant 2 5; MoreExamples.ant 2 7; MoreExamples.ant 0 9])
                [MoreExamples.ant 2 5; MoreExamples.ant 2 7] []
                (MoreExamples.ant 0 9) eq_refl eq_refl)
      as [cf [s [Hret [Hs [_ Hslot]]]]].
    + intros e' [].
    + exists cf. split; [exact Hret|].
      inversion Hs. subst s. exact (proj1 (Hslot 0 0)).
Defined.

(** ** unrot, continued *)

Section ModulusFacts.

Local Open Scope R_scope.

Lemma Cnorm2_mul_exp (a : C) (th : R) : Cnorm2 (a * Cexp_i th)%C = Cnorm2 a.
Proof.
  unfold Cnorm2, Cmul, Cexp_i. cbn [Re Im].
  pose proof (sin2_cos2 th) as H. unfold Rsqr in H.
  set (c := cos th) in *. set (s := sin th) in *.
  transitivity ((Re a * Re a + Im a * Im a) * (s * s + c * c)); [ring|].
  rewrite H. ring.
Qed.

(** The four products of one sample after a rotation by [d] carry the power
    they carried before. *)
Lemma rot_power (d : R) (x0 x1 x2 x3 : C) :
  Cnorm2 (x0 *r cos d + x3 *r sin d)%C + Cnorm2 (x1 *r cos d - x2 *r sin d)%C
  + Cnorm2 (x2 *r cos d + x1 *r sin d)%C + Cnorm2 (x3 *r cos d - x0 *r sin d)%C
  = Cnorm2 x0 + Cnorm2 x1 + Cnorm2 x2 + Cnorm2 x3.
Proof.
  unfold Cnorm2, Cadd, Csub, Cscale. cbn [Re Im].
  pose proof (sin2_cos2 d) as H. unfold Rsqr in H.
  set (c := cos d) in *. set (s := sin d) in *.
  destruct x0 as [a0 b0], x1 as [a1 b1], x2 as [a2 b2], x3 as [a3 b3].
  cbn [Re Im].
  transitivity ((a0 * a0 + b0 * b0 + (a1 * a1 + b1 * b1) + (a2 * a2 + b2 * b2)
                 + (a3 * a3 + b3 * b3)) * (s * s + c * c)); [ring|].
  rewrite H. ring.
Qed.

(** Rotating by [d1] and then by [d2] is rotating by [d1 + d2]. *)
Lemma rot_add (d1 d2 : R) (x0 x1 x2 x3 : C) :
  let y0 := (x0 *r cos d1 + x3 *r sin d1)%C in
  let y1 := (x1 *r cos d1 - x2 *r sin d1)%C in
  let y2 := (x2 *r cos d1 + x1 *r sin d1)%C in
  let y3 := (x3 *r cos d1 - x0 *r sin d1)%C in
  (y0 *r cos d2 + y3 *r sin d2)%C
  = (x0 *r cos (d1 + d2) + x3 *r sin (d1 + d2))%C /\
  (y1 *r cos d2 - y2 *r sin d2)%C
  = (x1 *r cos (d1 + d2) - x2 *r sin (d1 + d2))%C /\
  (y2 *r cos d2 + y1 *r sin d2)%C
  = (x2 *r cos (d1 + d2) + x1 *r sin (d1 + d2))%C /\
  (y3 *r cos d2 - y0 *r sin d2)%C
  = (x3 *r cos (d1 + d2) - x0 *r sin (d1 + d2))%C.
Proof.
  cbv zeta. rewrite cos_plus, sin_plus.
  destruct x0 as [a0 b0], x1 as [a1 b1], x2 as [a2 b2], x3 as [a3 b3].
  repeat split; apply C_eq; cbn [Re Im Cadd Csub Cscale]; ring.
Qed.

End ModulusFacts.

(** X13: the delay-phase correction changes phases only: every sample of
    the x array it leaves in the caller's dataset has the modulus of the
    sample it replaced. *)
Theorem delay_phase_preserves_modulus (data : Dataset) (cal : XYCal) :
  let fidx1 := fst (common_val_idx (fghz data) (fghz_good cal)) in
  let fidx2 := snd (common_val_idx (fghz data) (fghz_good cal)) in
  forall f k p t,
    Cnorm2 (delay_phase (dph_good cal) fidx1 fidx2 (x data) f k p t)
    = Cnorm2 (x data f k p t).
Proof.
  intros fidx1 fidx2 f k p t.
  assert (Hnd : NoDup fidx1) by apply common_val_idx_NoDup.
  destruct (nth_error get_bl_order k) as [[i j]|] eqn:Hk.
  - destruct (corrected_bl i j) eqn:Hc.
    + destruct (in_dec Nat.eq_dec f fidx1) as [Hin|Hnin].
      * destruct (In_nth _ _ 0 Hin) as [m [Hm Hf]]. subst f.
        destruct (delay_phase_matched (dph_good cal) fidx1 fidx2 (x data)
                    k i j m t Hk Hc Hnd Hm) as [H0 [H1 [H2 [H3 H4]]]].
        destruct p as [|[|[|[|p]]]].
        -- rewrite H0. reflexivity.
        -- rewrite H1. apply Cnorm2_mul_exp.
        -- rewrite H2. apply Cnorm2_mul_exp.
        -- rewrite H3. apply Cnorm2_mul_exp.
        -- rewrite H4 by lia. reflexivity.
      * rewrite delay_phase_untouched; [reflexivity|].
        intros i' j' _. right. left. exact Hnin.
    + rewrite delay_phase_untouched; [reflexivity|].
      intros i' j' Hk'. rewrite Hk in Hk'. injection Hk' as <- <-.
      left. exact Hc.
  - rewrite delay_phase_beyond by exact Hk. reflexivity.
Qed.

(** X14: the rotation loops move power between the four polarization
    products of a sample and neither add nor remove any: at every
    frequency, baseline and time the squared moduli of the four products
    sum to what they summed to before. *)
Theorem feed_rotation_preserves_power (chi : nat -> nat -> R) (nt : nat) (dx : XArr) :
  forall f k t,
    (Cnorm2 (feed_rotation chi nt dx f k 0%nat t)
     + Cnorm2 (feed_rotation chi nt dx f k 1%nat t)
     + Cnorm2 (feed_rotation chi nt dx f k 2%nat t)
     + Cnorm2 (feed_rotation chi nt dx f k 3%nat t))%R
    = (Cnorm2 (dx f k 0%nat t) + Cnorm2 (dx f k 1%nat t)
       + Cnorm2 (dx f k 2%nat t) + Cnorm2 (dx f k 3%nat t))%R.
Proof.
  intros f k t. rewrite !feed_rotation_at.
  destruct (nth_error get_bl_order k) as [[i j]|]; [|reflexivity].
  destruct (corrected_bl i j && (t <? nt)); [|reflexivity].
  unfold rot_val. apply rot_power.
Qed.

(** X15: two passes of the rotation loops compose by adding the angles:
    rotating with the angles chi1 and then with chi2 gives, at every index,
    what one pass with chi1 + chi2 gives. *)
Theorem feed_rotation_compose (chi1 chi2 : nat -> nat -> R) (nt : nat) (dx : XArr) :
  forall f k p t,
    feed_rotation chi2 nt (feed_rotation chi1 nt dx) f k p t
    = feed_rotation (fun n a => (chi1 n a + chi2 n a)%R) nt dx f k p t.
Proof.
  intros f k p t.
  rewrite (feed_rotation_at chi2 (feed_rotation chi1 nt dx) nt f k p t).
  rewrite (feed_rotation_at (fun n a => (chi1 n a + chi2 n a)%R) dx nt f k p t).
  destruct (nth_error get_bl_order k) as [[i j]|] eqn:Hk.
  - destruct (corrected_bl i j && (t <? nt)) eqn:Hc.
    + assert (Hq : forall q, feed_rotation chi1 nt dx f k q t
                             = rot_val chi1 dx i j f k q t).
      { intros q. rewrite feed_rotation_at, Hk, Hc. reflexivity. }
      unfold rot_val at 1 2.
      replace (chi1 t i + chi2 t i - (chi1 t j + chi2 t j))%R
        with ((chi1 t i - chi1 t j) + (chi2 t i - chi2 t j))%R by lra.
      destruct (rot_add (chi1 t i - chi1 t j) (chi2 t i - chi2 t j)
                  (dx f k 0 t) (dx f k 1 t) (dx f k 2 t) (dx f k 3 t))
        as [R0 [R1 [R2 R3]]].
      destruct p as [|[|[|[|p]]]]; rewrite ?Hq; unfold rot_val;
        [exact R0 | exact R1 | exact R2 | exact R3 | reflexivity].
    + rewrite feed_rotation_at, Hk, Hc. reflexivity.
  - rewrite feed_rotation_at, Hk. reflexivity.
Qed.

(** X16: unrot hands no dataset to its caller on any input: whatever the
    dataset, the geometry and the calibration record, the call ends in an
    exception. *)
Theorem unrot_raises_on_every_input
    (get_sql_info : R * R -> AzelDict) (read_xycal : R -> XYCal) (st : Store) :
  exists e, fst (unrot get_sql_info read_xycal st) = Raise e.
Proof.
  unfold unrot. destruct (time (caller_data st)) as [|t0 ts].
  - exists IndexError. reflexivity.
  - destruct (nonzero_idx_R _); [exists NoValidGeometrySample; reflexivity|].
    destruct (_ <? _); [exists IndexError | exists TypeError]; reflexivity.
Qed.

(** The three states unrot can leave its caller in: untouched, geometry
    corrected, or geometry corrected and x delay-phase corrected. *)
Lemma unrot_store_cases
    (get_sql_info : R * R -> AzelDict) (read_xycal : R -> XYCal) (st : Store) :
  snd (unrot get_sql_info read_xycal st) = st \/
  exists t0 ts (dph : nat -> nat -> R) (l1 l2 : list nat),
    let chi := correct_chi
                 (ParallacticAngle
                    (azel_used get_sql_info st (t0, last (t0 :: ts) t0))) in
    snd (unrot get_sql_info read_xycal st) = store_chi st chi \/
    snd (unrot get_sql_info read_xycal st)
    = mkStore (set_x (caller_data st)
                 (delay_phase dph l1 l2 (x (caller_data st))))
              (caller_azel (store_chi st chi)).
Proof.
  unfold unrot. destruct (time (caller_data st)) as [|t0 ts].
  - left. reflexivity.
  - right. exists t0, ts.
    destruct (nonzero_idx_R _).
    + exists (fun _ _ => 0%R), [], []. left. reflexivity.
    + eexists. eexists. eexists.
      destruct (_ <? _); right; reflexivity.
Qed.

(** X17: what unrot may change in the objects of its caller.  Of the
    dataset only x can change, and of x never product 0 nor any product of
    an auto-correlation baseline or of a baseline with antenna 14 or 15;
    time, fghz, px and py are the caller's.  Of a geometry dictionary only
    the columns 8, 9, 10, 12 and 13 of ParallacticAngle can change. *)
Theorem unrot_frame
    (get_sql_info : R * R -> AzelDict) (read_xycal : R -> XYCal) (st : Store) :
  let st' := snd (unrot get_sql_info read_xycal st) in
  time (caller_data st') = time (caller_data st) /\
  fghz (caller_data st') = fghz (caller_data st) /\
  px (caller_data st') = px (caller_data st) /\
  py (caller_data st') = py (caller_data st) /\
  (forall f k t,
      x (caller_data st') f k 0 t = x (caller_data st) f k 0 t) /\
  (forall f k p t i j,
      nth_error get_bl_order k = Some (i, j) -> i = j \/ 14 <= i \/ 14 <= j ->
      x (caller_data st') f k p t = x (caller_data st) f k p t) /\
  match caller_azel st, caller_azel st' with
  | Some a, Some a' =>
      azel_nt a' = azel_nt a /\ ActualAzimuth0 a' = ActualAzimuth0 a /\
      azTime a' = azTime a /\
      forall n c, equatorial c = false -> c <> 13 ->
                  ParallacticAngle a' n c = ParallacticAngle a n c
  | None, None => True
  | _, _ => False
  end.
Proof.
  assert (Hazel : forall chi : nat -> nat -> R,
             match caller_azel st, caller_azel (store_chi st (correct_chi chi)) with
             | Some a, Some a' =>
                 azel_nt a' = azel_nt a /\ ActualAzimuth0 a' = ActualAzimuth0 a /\
                 azTime a' = azTime a /\
                 forall n c, equatorial c = false -> c <> 13 ->
                             ParallacticAngle a' n c = correct_chi chi n c
             | None, None => True
             | _, _ => False
             end).
  { intros chi. unfold store_chi. cbn [caller_azel].
    destruct (caller_azel st) as [a|]; [|exact I].
    cbn [set_chi azel_nt ActualAzimuth0 azTime ParallacticAngle].
    repeat split. }
  assert (Hself : match caller_azel st, caller_azel st with
                  | Some a, Some a' =>
                      azel_nt a' = azel_nt a /\
                      ActualAzimuth0 a' = ActualAzimuth0 a /\
                      azTime a' = azTime a /\
                      forall n c, equatorial c = false -> c <> 13 ->
                                  ParallacticAngle a' n c = ParallacticAngle a n c
                  | None, None => True
                  | _, _ => False
                  end).
  { destruct (caller_azel st); [repeat split | exact I]. }
  assert (Hchi : forall t0 ts,
             match caller_azel st,
                   caller_azel
                     (store_chi st
                        (correct_chi
                           (ParallacticAngle
                              (azel_used get_sql_info st (t0, last (t0 :: ts) t0)))))
             with
             | Some a, Some a' =>
                 azel_nt a' = azel_nt a /\ ActualAzimuth0 a' = ActualAzimuth0 a /\
                 azTime a' = azTime a /\
                 forall n c, equatorial c = false -> c <> 13 ->
                             ParallacticAngle a' n c = ParallacticAngle a n c
             | None, None => True
             | _, _ => False
             end).
  { intros t0 ts.
    specialize (Hazel (ParallacticAngle
                         (azel_used get_sql_info st (t0, last (t0 :: ts) t0)))).
    unfold azel_used in *.
    destruct (caller_azel st) as [a|] eqn:Ea; [|exact Hazel].
    destruct (caller_azel (store_chi st (correct_chi (ParallacticAngle a))))
      as [a'|]; [|exact Hazel].
    destruct Hazel as [H1 [H2 [H3 H4]]]. repeat split; try assumption.
    intros n c Heq Hc. rewrite (H4 n c Heq Hc), correct_chi_at, Heq.
    apply Nat.eqb_neq in Hc. rewrite Hc. reflexivity. }
  intros st'.
  destruct (unrot_store_cases get_sql_info read_xycal st)
    as [E|[t0 [ts [dph [l1 [l2 [E|E]]]]]]]; unfold st'; rewrite E.
  - split; [reflexivity|]. split; [reflexivity|]. split; [reflexivity|].
    split; [reflexivity|]. split; [reflexivity|]. split; [reflexivity|].
    exact Hself.
  - unfold store_chi at 1 2 3 4 5 6. cbn [caller_data].
    split; [reflexivity|]. split; [reflexivity|]. split; [reflexivity|].
    split; [reflexivity|]. split; [reflexivity|]. split; [reflexivity|].
    apply Hchi.
  - cbn [caller_data caller_azel set_x time fghz px py x].
    split; [reflexivity|]. split; [reflexivity|]. split; [reflexivity|].
    split; [reflexivity|]. split; [|split].
    + intros f k t. apply delay_phase_untouched. intros i j _.
      right. right. left. reflexivity.
    + intros f k p t i j Hk Hex. apply delay_phase_untouched.
      intros i' j' Hk'. rewrite Hk in Hk'. injection Hk' as <- <-.
      left. apply corrected_bl_false. exact Hex.
    + apply Hchi.
Qed.

(** The rotation of one frequency row reads that row only. *)
Lemma feed_rotation_row (chi : nat -> nat -> R) (nt : nat) (dx dx' : XArr) (f : nat) :
  (forall k p t, dx f k p t = dx' f k p t) ->
  forall k p t, feed_rotation chi nt dx f k p t = feed_rotation chi nt dx' f k p t.
Proof.
  intros H k p t. rewrite !feed_rotation_at.
  destruct (nth_error get_bl_order k) as [[i j]|]; [|apply H].
  destruct (corrected_bl i j && (t <? nt)); [|apply H].
  unfold rot_val. rewrite !H. reflexivity.
Qed.

(** X18: a dataset frequency that the delay-phase record does not have (no
    non-zero calibration frequency with its value at 4 decimal digits) gets
    no delay-phase factor but is rotated all the same: in the dataset unrot
    builds, its x values are the rotation of the uncorrected input. *)
Theorem unrot_cdata_missing_frequency
    (data : Dataset) (azeldict : AzelDict) (cal : XYCal) (f : nat) :
  In f (setdiff1d_arange (length (fghz data))
          (fst (common_val_idx (fghz data) (fghz_good cal)))) ->
  f < length (fghz data) /\
  (forall c, In c (fghz_good cal) ->
             freq_key c <> freq_key (nth f (fghz data) 0%Q)) /\
  forall k p t,
    x (unrot_cdata data azeldict cal) f k p t
    = feed_rotation (correct_chi (ParallacticAngle azeldict))
        (length (time data)) (x data) f k p t.
Proof.
  intros Hmiss. pose proof Hmiss as Hm.
  apply missing_iff in Hm. destruct Hm as [Hf Hkey].
  split; [exact Hf|]. split.
  - intros c Hc Heq. apply Hkey. rewrite <- Heq. apply in_map. exact Hc.
  - intros k p t. unfold unrot_cdata. cbn [x set_x].
    apply feed_rotation_row. intros k' p' t'.
    apply delay_phase_untouched. intros i j _. right. left.
    unfold setdiff1d_arange in Hmiss. apply filter_In in Hmiss.
    destruct Hmiss as [_ Hneg]. apply negb_true_iff in Hneg.
    intros Hin.
    assert (Hex : existsb (Nat.eqb f)
                    (fst (common_val_idx (fghz data) (fghz_good cal))) = true).
    { apply existsb_exists. exists f. split; [exact Hin | apply Nat.eqb_refl]. }
    congruence.
Qed.

Lemma unrot_cdata_missing_frequency_witness :
  In 0 (setdiff1d_arange (length (fghz Examples.unit_data))
          (fst (common_val_idx (fghz Examples.unit_data)
                  (fghz_good Examples.cal_2ghz)))) /\
  x (unrot_cdata Examples.unit_data Examples.azel0 Examples.cal_2ghz) 0 1 2 0
  = feed_rotation (correct_chi (ParallacticAngle Examples.azel0))
      (length (time Examples.unit_data)) (x Examples.unit_data) 0 1 2 0.
Proof.
  assert (H : In 0 (setdiff1d_arange (length (fghz Examples.unit_data))
                      (fst (common_val_idx (fghz Examples.unit_data)
                              (fghz_good Examples.cal_2ghz)))))
    by (left; reflexivity).
  split; [exact H|].
  destruct (unrot_cdata_missing_frequency Examples.unit_data Examples.azel0
              Examples.cal_2ghz 0 H) as [_ [_ Hx]].
  exact (Hx 1 2 0).
Defined.

(** ** The calibration record's frequency axis *)

Lemma nonzero_idx_from (l : list Q) : forall s g,
    In g (flat_map (fun iq : nat * Q => if Qeq_bool (snd iq) 0 then [] else [fst iq])
                   (combine (seq s (length l)) l)) <->
    s <= g /\ g - s < length l /\ Qeq_bool (nth (g - s) l 0%Q) 0 = false.
Proof.
  induction l as [|q l IH]; intros s g.
  - simpl. split; [tauto | lia].
  - cbn [length seq combine flat_map fst snd]. rewrite in_app_iff, IH. split.
    + intros [H|[H1 [H2 H3]]].
      * destruct (Qeq_bool q 0) eqn:E; [contradiction|].
        destruct H as [<-|[]]. rewrite Nat.sub_diag. simpl.
        repeat split; [lia | lia | exact E].
      * replace (g - s) with (S (g - S s)) by lia. simpl.
        repeat split; [lia | lia | exact H3].
    + intros [H1 [H2 H3]]. destruct (Nat.eq_dec g s) as [->|Hne].
      * left. rewrite Nat.sub_diag in H3. simpl in H3. rewrite H3.
        left. reflexivity.
      * right. replace (g - s) with (S (g - S s)) in H2, H3 by lia.
        simpl in H2, H3. repeat split; [lia | lia | exact H3].
Qed.

Lemma nonzero_idx_In (l : list Q) (g : nat) :
  In g (nonzero_idx l) <-> g < length l /\ ~ (nth g l 0 == 0)%Q.
Proof.
  unfold nonzero_idx, enumerate. rewrite nonzero_idx_from, Nat.sub_0_r.
  split.
  - intros [_ [Hg He]]. split; [exact Hg|].
    intros Heq. apply Qeq_bool_iff in Heq. congruence.
  - intros [Hg Hne]. split; [lia|]. split; [exact Hg|].
    destruct (Qeq_bool (nth g l 0%Q) 0) eqn:E; [|reflexivity].
    exfalso. apply Hne. apply Qeq_bool_iff. exact E.
Qed.

(** X19: the frequency axis and the phase table of the delay-phase record
    stay aligned when the zero frequencies are dropped.  Position m of the
    reduced axis is a position g of the record with a non-zero frequency,
    the reduced phase table has at m the record's column g, and every
    non-zero frequency of the record is kept. *)
Theorem dph_good_aligned (cal : XYCal) :
  (forall m, m < length (fghz_good cal) ->
     exists g,
       g < length (cal_fghz cal) /\
       nth m (fghz_good cal) 0%Q = nth g (cal_fghz cal) 0%Q /\
       ~ (nth g (cal_fghz cal) 0 == 0)%Q /\
       forall i, dph_good cal i m = XYphase cal i g) /\
  (forall g, g < length (cal_fghz cal) -> ~ (nth g (cal_fghz cal) 0 == 0)%Q ->
     In (nth g (cal_fghz cal) 0%Q) (fghz_good cal)).
Proof.
  split.
  - intros m Hm. unfold fghz_good in Hm. rewrite length_map in Hm.
    exists (nth m (nonzero_idx (cal_fghz cal)) 0).
    assert (Hin : In (nth m (nonzero_idx (cal_fghz cal)) 0)
                     (nonzero_idx (cal_fghz cal))) by (apply nth_In; exact Hm).
    apply nonzero_idx_In in Hin. destruct Hin as [Hg Hne].
    split; [exact Hg|]. split.
    + unfold fghz_good.
      rewrite (nth_indep _ 0%Q
                 ((fun g => nth g (cal_fghz cal) 0%Q) 0))
        by (rewrite length_map; exact Hm).
      apply (map_nth (fun g => nth g (cal_fghz cal) 0%Q)).
    + split; [exact Hne | intros i; reflexivity].
  - intros g Hg Hne. unfold fghz_good.
    apply (in_map (fun g => nth g (cal_fghz cal) 0%Q)).
    apply nonzero_idx_In. split; assumption.
Qed.

(** ** Calling unrot again on the same dataset *)

(** The store unrot leaves is again an input on which it reaches line 216. *)
Lemma unrot_input_ok_again
    (get_sql_info : R * R -> AzelDict) (st : Store) (t0 : R) (ts : list R)
    (chi : nat -> nat -> R) (x1 : XArr) :
  time (caller_data st) = t0 :: ts ->
  unrot_input_ok (caller_data st)
                 (azel_used get_sql_info st (t0, last (t0 :: ts) t0)) ->
  let st1 := mkStore (set_x (caller_data st) x1)
                     (caller_azel (store_chi st chi)) in
  time (caller_data st1) = t0 :: ts /\
  unrot_input_ok (caller_data st1)
                 (azel_used get_sql_info st1 (t0, last (t0 :: ts) t0)).
Proof.
  intros Ht [H1 [H2 H3]] st1. split; [exact Ht|].
  unfold unrot_input_ok, st1, azel_used, store_chi in *.
  cbn [caller_data caller_azel set_x time] in *.
  destruct (caller_azel st) as [a|];
    cbn [set_chi ActualAzimuth0 azel_nt]; repeat split; assumption.
Qed.

(** X20: the delay-phase factors accumulate over calls.  Because the
    delay-phase loop writes the caller's own x array, a second call of
    unrot on the same dataset multiplies products 1, 2 and 3 of the matched
    frequencies of the corrected baselines by their factors once more: the
    caller then holds the input times the square of each factor. *)
Theorem unrot_twice_delay_phase_twice
    (get_sql_info : R * R -> AzelDict) (read_xycal : R -> XYCal)
    (st : Store) (t0 : R) (ts : list R) :
  time (caller_data st) = t0 :: ts ->
  unrot_input_ok (caller_data st)
                 (azel_used get_sql_info st (t0, last (t0 :: ts) t0)) ->
  let cal := read_xycal t0 in
  let fidx1 := fst (common_val_idx (fghz (caller_data st)) (fghz_good cal)) in
  let fidx2 := snd (common_val_idx (fghz (caller_data st)) (fghz_good cal)) in
  let dph := dph_good cal in
  let st2 := snd (unrot get_sql_info read_xycal
                    (snd (unrot get_sql_info read_xycal st))) in
  forall k i j m t,
    nth_error get_bl_order k = Some (i, j) -> corrected_bl i j = true ->
    m < length fidx1 ->
    let f := nth m fidx1 0 in
    let c := nth m fidx2 0 in
    let e1 := Cexp_i (lobe (dph i c - dph j c)) in
    let e2 := Cexp_i (- dph j c + PI / 2) in
    let e3 := Cexp_i (dph i c - PI / 2) in
    x (caller_data st2) f k 1 t = (x (caller_data st) f k 1 t * e1 * e1)%C /\
    x (caller_data st2) f k 2 t = (x (caller_data st) f k 2 t * e2 * e2)%C /\
    x (caller_data st2) f k 3 t = (x (caller_data st) f k 3 t * e3 * e3)%C.
Proof.
  intros Ht Hok cal fidx1 fidx2 dph st2 k i j m t Hk Hc Hm f c e1 e2 e3.
  pose proof (unrot_reaches_mask get_sql_info read_xycal st t0 ts Ht Hok) as E1.
  cbv zeta in E1. fold cal in E1. fold fidx1 in E1. fold fidx2 in E1.
  fold dph in E1.
  set (chi := correct_chi
                (ParallacticAngle
                   (azel_used get_sql_info st (t0, last (t0 :: ts) t0)))) in *.
  set (x1 := delay_phase dph fidx1 fidx2 (x (caller_data st))) in *.
  destruct (unrot_input_ok_again get_sql_info st t0 ts chi x1 Ht Hok)
    as [Ht1 Hok1].
  set (st1 := mkStore (set_x (caller_data st) x1)
                      (caller_azel (store_chi st chi))) in *.
  pose proof (unrot_reaches_mask get_sql_info read_xycal st1 t0 ts Ht1 Hok1) as E2.
  cbv zeta in E2.
  assert (Est2 : x (caller_data st2) = delay_phase dph fidx1 fidx2 x1).
  { unfold st2. rewrite E1. cbn [snd]. fold st1. rewrite E2. reflexivity. }
  rewrite Est2.
  assert (Hnd : NoDup fidx1) by apply common_val_idx_NoDup.
  destruct (delay_phase_matched dph fidx1 fidx2 x1 k i j m t Hk Hc Hnd Hm)
    as [_ [A1 [A2 [A3 _]]]].
  destruct (delay_phase_matched dph fidx1 fidx2 (x (caller_data st)) k i j m t
              Hk Hc Hnd Hm) as [_ [B1 [B2 [B3 _]]]].
  fold x1 in B1, B2, B3. fold f in A1, A2, A3, B1, B2, B3.
  fold c in A1, A2, A3, B1, B2, B3.
  rewrite A1, A2, A3, B1, B2, B3. repeat split; reflexivity.
Qed.

Lemma unrot_twice_delay_phase_twice_witness :
  time (caller_data Examples.store0) = [0%R; 1%R] /\
  x (caller_data
       (snd (unrot Examples.sql0 Examples.read_cal0
               (snd (unrot Examples.sql0 Examples.read_cal0 Examples.store0)))))
    0 1 2 0
  = (x (caller_data Examples.store0) 0 1 2 0
     * Cexp_i (- dph_good Examples.cal0 1 0 + PI / 2)
     * Cexp_i (- dph_good Examples.cal0 1 0 + PI / 2))%C.
Proof.
  split; [reflexivity|].
  assert (Hok : unrot_input_ok (caller_data Examples.store0)
                  (azel_used Examples.sql0 Examples.store0
                     (0%R, last [0%R; 1%R] 0%R)))
    by (apply unit_data_input_ok; reflexivity).
  assert (Hm : 0 < length (fst (common_val_idx
                                  (fghz (caller_data Examples.store0))
                                  (fghz_good (Examples.read_cal0 0%R)))))
    by (simpl; lia).
  exact (proj1 (proj2 (unrot_twice_delay_phase_twice Examples.sql0
                         Examples.read_cal0 Examples.store0 0%R [1%R] eq_refl Hok
                         1 0 1 0 0 bl_order_1 eq_refl Hm))).
Defined.
